(** * VisionGuide live session: a shallow embedding of the session component

    The development follows the React component of the repository
    (state hooks, refs and the callbacks [saveToDb], [stopSession],
    [startSession], [onopen], [onmessage], [onerror], [onclose] and the
    interval callback).  React state and refs become fields of one record,
    every callback becomes a function on that record, and the calls the
    component makes on the browser and on the transport are appended to a
    log kept in the record. *)

From Stdlib Require Import NArith String Ascii.
From stdpp Require Import base option list gmap.

Local Open Scope N_scope.

(** ** JavaScript strings

    A JavaScript string is a sequence of UTF-16 code units. *)

Definition jsstring := list N.

(** ASCII literal as a sequence of code units. *)
Definition lit (s : string) : jsstring :=
  map N_of_ascii (list_ascii_of_string s).

(** WhiteSpace and LineTerminator code points, all of them in the basic
    plane: the characters removed by [String.prototype.trim]. *)
Definition white_space : list N :=
  [ 9; 10; 11; 12; 13; 32; 160; 5760;
    8192; 8193; 8194; 8195; 8196; 8197; 8198; 8199; 8200; 8201; 8202;
    8232; 8233; 8239; 8287; 12288; 65279 ].

Definition is_white_space (c : N) : bool :=
  existsb (N.eqb c) white_space.

Fixpoint trimStart (s : jsstring) : jsstring :=
  match s with
  | [] => []
  | c :: s' => if is_white_space c then trimStart s' else s
  end.

Definition trimEnd (s : jsstring) : jsstring :=
  rev (trimStart (rev s)).

Definition trim (s : jsstring) : jsstring :=
  trimEnd (trimStart s).

(** Truthiness of a string value: the empty string is falsy. *)
Definition truthy (s : jsstring) : bool :=
  match s with [] => false | _ :: _ => true end.

(** Truthiness of a possibly absent string ([undefined] is falsy). *)
Definition truthy_opt (o : option jsstring) : bool :=
  match o with Some s => truthy s | None => false end.

(** ** Data model *)

Inductive Speaker := user | ai.

Record TranscriptionEntry := {
  text : jsstring;
  type : Speaker;
  timestamp : N
}.

Inductive SessionState := DISCONNECTED | CONNECTING | CONNECTED | ERROR.

Global Instance SessionState_eq_dec : EqDecision SessionState.
Proof. solve_decision. Defined.

Global Instance Speaker_eq_dec : EqDecision Speaker.
Proof. solve_decision. Defined.

(** Constants of the component.  Times on the output clock are counted in
    frames of the output context: [ctx.currentTime] and [buffer.duration]
    are both a whole number of frames divided by [SAMPLE_RATE_OUT]; the
    rounding of the double arithmetic is not modelled. *)
Definition SAMPLE_RATE_IN : N := 16000.
Definition SAMPLE_RATE_OUT : N := 24000.
Definition FRAME_RATE : N := 1.
Definition interval_ms : N := 1000 / FRAME_RATE.

(** [slice(0, n)] and [slice(-n)] on arrays. *)
Definition slice_first {A} (n : nat) (l : list A) : list A := take n l.
Definition slice_last {A} (n : nat) (l : list A) : list A :=
  drop (length l - n)%nat l.

(** Outbound media chunk, the argument of [sendRealtimeInput]. *)
Record MediaChunk := {
  data : jsstring;
  mimeType : jsstring
}.

Definition audio_mime : jsstring := lit "audio/pcm;rate=16000".
Definition image_mime : jsstring := lit "image/jpeg".

Definition is_image (c : MediaChunk) : bool :=
  bool_decide (mimeType c = image_mime).

(** Inbound message: the fields of [message.serverContent] that the handler
    reads. *)
Record ServerMessage := {
  audioData : option jsstring;
  inputTranscription : option jsstring;
  outputTranscription : option jsstring;
  turnComplete : bool;
  interrupted : bool
}.

(** Clock readings taken by one run of a handler: [ctx.currentTime] and the
    values of the two [Date.now()] calls (user entry, assistant entry). *)
Record Clock := {
  currentTime : N;
  dateNowUser : N;
  dateNowAi : N
}.

(** Calls made on the browser, the storage and the transport. *)
Inductive Effect :=
| SessionClose (h : nat)
| ClearInterval (i : positive)
| SourceStart (src : nat) (when : N) (duration : N)
| SourceStop (src : nat)
| TrackStop (stream : nat)
| SendRealtimeInput (k : nat) (c : MediaChunk)
| StorageSetItem (v : list TranscriptionEntry).

(** The callback registered with [window.setInterval]: the [startSession]
    invocation it belongs to and the value of [sessionState] its closure
    holds. *)
Record Timer := {
  timer_inv : nat;
  timer_seen : SessionState
}.

(** ** Component state *)

#[projections(primitive)] Record State := {
  (* useState *)
  sessionState : SessionState;
  transcriptions : list TranscriptionEntry;
  dbEntries : list TranscriptionEntry;
  error : option jsstring;
  (* useRef *)
  videoSrcObject : option nat;
  audioContextOut : bool;
  sessionRef : option nat;
  sourcesRef : list nat;
  nextStartTimeRef : N;
  intervalRef : option positive;
  currentInputTranscription : jsstring;
  currentOutputTranscription : jsstring;
  (* browser and transport *)
  localStorage : option (list TranscriptionEntry);
  timers : gmap positive Timer;
  processors : list nat;
  pending : list ServerMessage;
  closures : list SessionState;
  nextSource : nat;
  nextTimer : positive;
  effects : list Effect
}.

(** Field updates: each [set_f v s] is [s] with field [f] replaced by [v]. *)

Definition set_sessionState (v : SessionState) (s : State) : State :=
  {| sessionState := v; transcriptions := transcriptions s;
     dbEntries := dbEntries s; error := error s;
     videoSrcObject := videoSrcObject s;
     audioContextOut := audioContextOut s; sessionRef := sessionRef s;
     sourcesRef := sourcesRef s; nextStartTimeRef := nextStartTimeRef s;
     intervalRef := intervalRef s;
     currentInputTranscription := currentInputTranscription s;
     currentOutputTranscription := currentOutputTranscription s;
     localStorage := localStorage s; timers := timers s;
     processors := processors s; pending := pending s;
     closures := closures s; nextSource := nextSource s;
     nextTimer := nextTimer s; effects := effects s |}.

Definition set_transcriptions (v : list TranscriptionEntry) (s : State) : State :=
  {| sessionState := sessionState s; transcriptions := v;
     dbEntries := dbEntries s; error := error s;
     videoSrcObject := videoSrcObject s;
     audioContextOut := audioContextOut s; sessionRef := sessionRef s;
     sourcesRef := sourcesRef s; nextStartTimeRef := nextStartTimeRef s;
     intervalRef := intervalRef s;
     currentInputTranscription := currentInputTranscription s;
     currentOutputTranscription := currentOutputTranscription s;
     localStorage := localStorage s; timers := timers s;
     processors := processors s; pending := pending s;
     closures := closures s; nextSource := nextSource s;
     nextTimer := nextTimer s; effects := effects s |}.

Definition set_dbEntries (v : list TranscriptionEntry) (s : State) : State :=
  {| sessionState := sessionState s; transcriptions := transcriptions s;
     dbEntries := v; error := error s; videoSrcObject := videoSrcObject s;
     audioContextOut := audioContextOut s; sessionRef := sessionRef s;
     sourcesRef := sourcesRef s; nextStartTimeRef := nextStartTimeRef s;
     intervalRef := intervalRef s;
     currentInputTranscription := currentInputTranscription s;
     currentOutputTranscription := currentOutputTranscription s;
     localStorage := localStorage s; timers := timers s;
     processors := processors s; pending := pending s;
     closures := closures s; nextSource := nextSource s;
     nextTimer := nextTimer s; effects := effects s |}.

Definition set_error (v : option jsstring) (s : State) : State :=
  {| sessionState := sessionState s; transcriptions := transcriptions s;
     dbEntries := dbEntries s; error := v;
     videoSrcObject := videoSrcObject s;
     audioContextOut := audioContextOut s; sessionRef := sessionRef s;
     sourcesRef := sourcesRef s; nextStartTimeRef := nextStartTimeRef s;
     intervalRef := intervalRef s;
     currentInputTranscription := currentInputTranscription s;
     currentOutputTranscription := currentOutputTranscription s;
     localStorage := localStorage s; timers := timers s;
     processors := processors s; pending := pending s;
     closures := closures s; nextSource := nextSource s;
     nextTimer := nextTimer s; effects := effects s |}.

Definition set_videoSrcObject (v : option nat) (s : State) : State :=
  {| sessionState := sessionState s; transcriptions := transcriptions s;
     dbEntries := dbEntries s; error := error s; videoSrcObject := v;
     audioContextOut := audioContextOut s; sessionRef := sessionRef s;
     sourcesRef := sourcesRef s; nextStartTimeRef := nextStartTimeRef s;
     intervalRef := intervalRef s;
     currentInputTranscription := currentInputTranscription s;
     currentOutputTranscription := currentOutputTranscription s;
     localStorage := localStorage s; timers := timers s;
     processors := processors s; pending := pending s;
     closures := closures s; nextSource := nextSource s;
     nextTimer := nextTimer s; effects := effects s |}.

Definition set_audioContextOut (v : bool) (s : State) : State :=
  {| sessionState := sessionState s; transcriptions := transcriptions s;
     dbEntries := dbEntries s; error := error s;
     videoSrcObject := videoSrcObject s; audioContextOut := v;
     sessionRef := sessionRef s; sourcesRef := sourcesRef s;
     nextStartTimeRef := nextStartTimeRef s; intervalRef := intervalRef s;
     currentInputTranscription := currentInputTranscription s;
     currentOutputTranscription := currentOutputTranscription s;
     localStorage := localStorage s; timers := timers s;
     processors := processors s; pending := pending s;
     closures := closures s; nextSource := nextSource s;
     nextTimer := nextTimer s; effects := effects s |}.

Definition set_sessionRef (v : option nat) (s : State) : State :=
  {| sessionState := sessionState s; transcriptions := transcriptions s;
     dbEntries := dbEntries s; error := error s;
     videoSrcObject := videoSrcObject s;
     audioContextOut := audioContextOut s; sessionRef := v;
     sourcesRef := sourcesRef s; nextStartTimeRef := nextStartTimeRef s;
     intervalRef := intervalRef s;
     currentInputTranscription := currentInputTranscription s;
     currentOutputTranscription := currentOutputTranscription s;
     localStorage := localStorage s; timers := timers s;
     processors := processors s; pending := pending s;
     closures := closures s; nextSource := nextSource s;
     nextTimer := nextTimer s; effects := effects s |}.

Definition set_sourcesRef (v : list nat) (s : State) : State :=
  {| sessionState := sessionState s; transcriptions := transcriptions s;
     dbEntries := dbEntries s; error := error s;
     videoSrcObject := videoSrcObject s;
     audioContextOut := audioContextOut s; sessionRef := sessionRef s;
     sourcesRef := v; nextStartTimeRef := nextStartTimeRef s;
     intervalRef := intervalRef s;
     currentInputTranscription := currentInputTranscription s;
     currentOutputTranscription := currentOutputTranscription s;
     localStorage := localStorage s; timers := timers s;
     processors := processors s; pending := pending s;
     closures := closures s; nextSource := nextSource s;
     nextTimer := nextTimer s; effects := effects s |}.

Definition set_nextStartTimeRef (v : N) (s : State) : State :=
  {| sessionState := sessionState s; transcriptions := transcriptions s;
     dbEntries := dbEntries s; error := error s;
     videoSrcObject := videoSrcObject s;
     audioContextOut := audioContextOut s; sessionRef := sessionRef s;
     sourcesRef := sourcesRef s; nextStartTimeRef := v;
     intervalRef := intervalRef s;
     currentInputTranscription := currentInputTranscription s;
     currentOutputTranscription := currentOutputTranscription s;
     localStorage := localStorage s; timers := timers s;
     processors := processors s; pending := pending s;
     closures := closures s; nextSource := nextSource s;
     nextTimer := nextTimer s; effects := effects s |}.

Definition set_intervalRef (v : option positive) (s : State) : State :=
  {| sessionState := sessionState s; transcriptions := transcriptions s;
     dbEntries := dbEntries s; error := error s;
     videoSrcObject := videoSrcObject s;
     audioContextOut := audioContextOut s; sessionRef := sessionRef s;
     sourcesRef := sourcesRef s; nextStartTimeRef := nextStartTimeRef s;
     intervalRef := v;
     currentInputTranscription := currentInputTranscription s;
     currentOutputTranscription := currentOutputTranscription s;
     localStorage := localStorage s; timers := timers s;
     processors := processors s; pending := pending s;
     closures := closures s; nextSource := nextSource s;
     nextTimer := nextTimer s; effects := effects s |}.

Definition set_currentInputTranscription (v : jsstring) (s : State) : State :=
  {| sessionState := sessionState s; transcriptions := transcriptions s;
     dbEntries := dbEntries s; error := error s;
     videoSrcObject := videoSrcObject s;
     audioContextOut := audioContextOut s; sessionRef := sessionRef s;
     sourcesRef := sourcesRef s; nextStartTimeRef := nextStartTimeRef s;
     intervalRef := intervalRef s; currentInputTranscription := v;
     currentOutputTranscription := currentOutputTranscription s;
     localStorage := localStorage s; timers := timers s;
     processors := processors s; pending := pending s;
     closures := closures s; nextSource := nextSource s;
     nextTimer := nextTimer s; effects := effects s |}.

Definition set_currentOutputTranscription (v : jsstring) (s : State) : State :=
  {| sessionState := sessionState s; transcriptions := transcriptions s;
     dbEntries := dbEntries s; error := error s;
     videoSrcObject := videoSrcObject s;
     audioContextOut := audioContextOut s; sessionRef := sessionRef s;
     sourcesRef := sourcesRef s; nextStartTimeRef := nextStartTimeRef s;
     intervalRef := intervalRef s;
     currentInputTranscription := currentInputTranscription s;
     currentOutputTranscription := v; localStorage := localStorage s;
     timers := timers s; processors := processors s; pending := pending s;
     closures := closures s; nextSource := nextSource s;
     nextTimer := nextTimer s; effects := effects s |}.

Definition set_localStorage (v : option (list TranscriptionEntry)) (s : State) : State :=
  {| sessionState := sessionState s; transcriptions := transcriptions s;
     dbEntries := dbEntries s; error := error s;
     videoSrcObject := videoSrcObject s;
     audioContextOut := audioContextOut s; sessionRef := sessionRef s;
     sourcesRef := sourcesRef s; nextStartTimeRef := nextStartTimeRef s;
     intervalRef := intervalRef s;
     currentInputTranscription := currentInputTranscription s;
     currentOutputTranscription := currentOutputTranscription s;
     localStorage := v; timers := timers s; processors := processors s;
     pending := pending s; closures := closures s;
     nextSource := nextSource s; nextTimer := nextTimer s;
     effects := effects s |}.

Definition set_timers (v : gmap positive Timer) (s : State) : State :=
  {| sessionState := sessionState s; transcriptions := transcriptions s;
     dbEntries := dbEntries s; error := error s;
     videoSrcObject := videoSrcObject s;
     audioContextOut := audioContextOut s; sessionRef := sessionRef s;
     sourcesRef := sourcesRef s; nextStartTimeRef := nextStartTimeRef s;
     intervalRef := intervalRef s;
     currentInputTranscription := currentInputTranscription s;
     currentOutputTranscription := currentOutputTranscription s;
     localStorage := localStorage s; timers := v; processors := processors s;
     pending := pending s; closures := closures s;
     nextSource := nextSource s; nextTimer := nextTimer s;
     effects := effects s |}.

Definition set_processors (v : list nat) (s : State) : State :=
  {| sessionState := sessionState s; transcriptions := transcriptions s;
     dbEntries := dbEntries s; error := error s;
     videoSrcObject := videoSrcObject s;
     audioContextOut := audioContextOut s; sessionRef := sessionRef s;
     sourcesRef := sourcesRef s; nextStartTimeRef := nextStartTimeRef s;
     intervalRef := intervalRef s;
     currentInputTranscription := currentInputTranscription s;
     currentOutputTranscription := currentOutputTranscription s;
     localStorage := localStorage s; timers := timers s; processors := v;
     pending := pending s; closures := closures s;
     nextSource := nextSource s; nextTimer := nextTimer s;
     effects := effects s |}.

Definition set_pending (v : list ServerMessage) (s : State) : State :=
  {| sessionState := sessionState s; transcriptions := transcriptions s;
     dbEntries := dbEntries s; error := error s;
     videoSrcObject := videoSrcObject s;
     audioContextOut := audioContextOut s; sessionRef := sessionRef s;
     sourcesRef := sourcesRef s; nextStartTimeRef := nextStartTimeRef s;
     intervalRef := intervalRef s;
     currentInputTranscription := currentInputTranscription s;
     currentOutputTranscription := currentOutputTranscription s;
     localStorage := localStorage s; timers := timers s;
     processors := processors s; pending := v; closures := closures s;
     nextSource := nextSource s; nextTimer := nextTimer s;
     effects := effects s |}.

Definition set_closures (v : list SessionState) (s : State) : State :=
  {| sessionState := sessionState s; transcriptions := transcriptions s;
     dbEntries := dbEntries s; error := error s;
     videoSrcObject := videoSrcObject s;
     audioContextOut := audioContextOut s; sessionRef := sessionRef s;
     sourcesRef := sourcesRef s; nextStartTimeRef := nextStartTimeRef s;
     intervalRef := intervalRef s;
     currentInputTranscription := currentInputTranscription s;
     currentOutputTranscription := currentOutputTranscription s;
     localStorage := localStorage s; timers := timers s;
     processors := processors s; pending := pending s; closures := v;
     nextSource := nextSource s; nextTimer := nextTimer s;
     effects := effects s |}.

Definition set_nextSource (v : nat) (s : State) : State :=
  {| sessionState := sessionState s; transcriptions := transcriptions s;
     dbEntries := dbEntries s; error := error s;
     videoSrcObject := videoSrcObject s;
     audioContextOut := audioContextOut s; sessionRef := sessionRef s;
     sourcesRef := sourcesRef s; nextStartTimeRef := nextStartTimeRef s;
     intervalRef := intervalRef s;
     currentInputTranscription := currentInputTranscription s;
     currentOutputTranscription := currentOutputTranscription s;
     localStorage := localStorage s; timers := timers s;
     processors := processors s; pending := pending s;
     closures := closures s; nextSource := v; nextTimer := nextTimer s;
     effects := effects s |}.

Definition set_nextTimer (v : positive) (s : State) : State :=
  {| sessionState := sessionState s; transcriptions := transcriptions s;
     dbEntries := dbEntries s; error := error s;
     videoSrcObject := videoSrcObject s;
     audioContextOut := audioContextOut s; sessionRef := sessionRef s;
     sourcesRef := sourcesRef s; nextStartTimeRef := nextStartTimeRef s;
     intervalRef := intervalRef s;
     currentInputTranscription := currentInputTranscription s;
     currentOutputTranscription := currentOutputTranscription s;
     localStorage := localStorage s; timers := timers s;
     processors := processors s; pending := pending s;
     closures := closures s; nextSource := nextSource s; nextTimer := v;
     effects := effects s |}.

Definition set_effects (v : list Effect) (s : State) : State :=
  {| sessionState := sessionState s; transcriptions := transcriptions s;
     dbEntries := dbEntries s; error := error s;
     videoSrcObject := videoSrcObject s;
     audioContextOut := audioContextOut s; sessionRef := sessionRef s;
     sourcesRef := sourcesRef s; nextStartTimeRef := nextStartTimeRef s;
     intervalRef := intervalRef s;
     currentInputTranscription := currentInputTranscription s;
     currentOutputTranscription := currentOutputTranscription s;
     localStorage := localStorage s; timers := timers s;
     processors := processors s; pending := pending s;
     closures := closures s; nextSource := nextSource s;
     nextTimer := nextTimer s; effects := v |}.

(** Append a call to the log. *)
Definition emit (e : Effect) (s : State) : State :=
  set_effects (effects s ++ [e]) s.

(** Outcome of a block that may throw; both carry the state reached. *)
Inductive Completion := Normal (s : State) | Throw (s : State).

(** [Set.prototype.add] and [Set.prototype.delete] on a set kept in
    insertion order, the order [forEach] visits. *)
Definition set_add (x : nat) (l : list nat) : list nat :=
  if bool_decide (x ∈ l) then l else l ++ [x].

Definition set_delete (x : nat) (l : list nat) : list nat :=
  filter (λ y, y ≠ x) l.

(** State of the component when it mounts: the effect hook loads the saved
    memory log, when there is one, from [localStorage]. *)
Definition mount (saved : option (list TranscriptionEntry)) : State :=
  {| sessionState := DISCONNECTED; transcriptions := [];
     dbEntries := default [] saved; error := None;
     videoSrcObject := None; audioContextOut := false; sessionRef := None;
     sourcesRef := []; nextStartTimeRef := 0; intervalRef := None;
     currentInputTranscription := []; currentOutputTranscription := [];
     localStorage := saved; timers := ∅; processors := []; pending := [];
     closures := []; nextSource := O; nextTimer := 1%positive;
     effects := [] |}.

(** ** Callbacks *)

Section Component.

(** Which calls throw.  The component guards [session.close()] and
    [source.stop()] with [try { } catch(e) {}]; these are the only calls
    run through [perform].  [clearInterval] and [MediaStreamTrack.stop]
    never throw. *)
Variable throws : Effect → bool.

Definition perform (e : Effect) (s : State) : Completion :=
  if throws e then Throw (emit e s) else Normal (emit e s).

(** [try { body } catch(e) {}] *)
Definition try_catch (body : State → Completion) (s : State) : State :=
  match body s with
  | Normal s' => s'
  | Throw s' => s'
  end.

(** [saveToDb] *)
Definition saveToDb (entry : TranscriptionEntry) (s : State) : State :=
  let updated := slice_first 50 (entry :: dbEntries s) in
  set_dbEntries updated
    (set_localStorage (Some updated) (emit (StorageSetItem updated) s)).

(** [sourcesRef.current.forEach(s => { try { s.stop(); } catch(e) {} });
    sourcesRef.current.clear();] *)
Definition stopSources (s : State) : State :=
  set_sourcesRef []
    (foldl (λ s src, try_catch (perform (SourceStop src)) s) s (sourcesRef s)).

(** [stopSession] *)
Definition stopSession (s : State) : State :=
  let s :=
    match sessionRef s with
    | Some h => set_sessionRef None (try_catch (perform (SessionClose h)) s)
    | None => s
    end in
  let s :=
    match intervalRef s with
    | Some i =>
        set_intervalRef None
          (set_timers (delete i (timers s)) (emit (ClearInterval i) s))
    | None => s
    end in
  let s := stopSources s in
  let s := set_sessionState DISCONNECTED s in
  match videoSrcObject s with
  | Some stream => set_videoSrcObject None (emit (TrackStop stream) s)
  | None => s
  end.

(** [startSession], up to its first [await].  The function is created by
    the render in which it is invoked, so the [sessionState] its closures
    see is the value at that time; it is recorded per invocation. *)
Definition startSession_begin (s : State) : State :=
  set_sessionState CONNECTING
    (set_error None (set_closures (closures s ++ [sessionState s]) s)).

(** [startSession] after [getUserMedia] resolved: the stream is attached to
    the video element and the two audio contexts are created. *)
Definition startSession_media (stream : nat) (s : State) : State :=
  set_audioContextOut true (set_videoSrcObject (Some stream) s).

(** [sessionRef.current = await sessionPromise] *)
Definition startSession_resolved (h : nat) (s : State) : State :=
  set_sessionRef (Some h) s.

Definition start_failure_default : jsstring :=
  lit "Permissions or API access failed.".

(** The [catch] block of [startSession]. *)
Definition startSession_catch (msg : option jsstring) (s : State) : State :=
  let m := if truthy_opt msg then default [] msg else start_failure_default in
  set_sessionState DISCONNECTED (set_error (Some m) s).

(** [onopen] of invocation [k], whose closure holds [seen]. *)
Definition onopen (k : nat) (seen : SessionState) (s : State) : State :=
  let s := set_sessionState CONNECTED s in
  let s := set_processors (processors s ++ [k]) s in
  let i := nextTimer s in
  set_intervalRef (Some i)
    (set_timers (<[i := {| timer_inv := k; timer_seen := seen |}]> (timers s))
       (set_nextTimer (Pos.succ i) s)).

(** [processor.onaudioprocess] of a processor created by invocation [k]. *)
Definition onaudioprocess (k : nat) (pcm : jsstring) (s : State) : State :=
  emit (SendRealtimeInput k {| data := pcm; mimeType := audio_mime |}) s.

(** The interval callback.  [frame] is the base64 text of the blob that
    [toBlob(..., 'image/jpeg', JPEG_QUALITY)] hands over, absent when there
    is no 2d context or no blob.  The video and canvas elements are
    mounted with the component. *)
Definition interval_callback (t : Timer) (frame : option jsstring)
    (s : State) : State :=
  if bool_decide (timer_seen t = CONNECTED) then
    match frame with
    | Some base64Data =>
        emit (SendRealtimeInput (timer_inv t)
                {| data := base64Data; mimeType := image_mime |}) s
    | None => s
    end
  else s.

(** [source.onended] *)
Definition onended (src : nat) (s : State) : State :=
  set_sourcesRef (set_delete src (sourcesRef s)) s.

(** *** [onmessage] *)

(** Line 195, before the [await]. *)
Definition enqueue_begin (now : N) (s : State) : State :=
  set_nextStartTimeRef (N.max (nextStartTimeRef s) now) s.

(** Lines 197-203, after the [await]; [duration] is [buffer.duration]. *)
Definition enqueue_finish (duration : N) (s : State) : State :=
  let src := nextSource s in
  let s := set_nextSource (S src) s in
  let s := emit (SourceStart src (nextStartTimeRef s) duration) s in
  let s := set_nextStartTimeRef (nextStartTimeRef s + duration) s in
  set_sourcesRef (set_add src (sourcesRef s)) s.

(** The audio block run without another handler in between. *)
Definition enqueue (now duration : N) (s : State) : State :=
  enqueue_finish duration (enqueue_begin now s).

(** Lines 206-211. *)
Definition appendFragments (m : ServerMessage) (s : State) : State :=
  let s :=
    match inputTranscription m with
    | Some t =>
        set_currentInputTranscription (currentInputTranscription s ++ t) s
    | None => s
    end in
  match outputTranscription m with
  | Some t =>
      set_currentOutputTranscription (currentOutputTranscription s ++ t) s
  | None => s
  end.

(** [newEntries] of lines 217-223. *)
Definition newEntries (userT aiT : jsstring) (clk : Clock)
    : list TranscriptionEntry :=
  (if truthy userT
   then [ {| text := userT; type := user; timestamp := dateNowUser clk |} ]
   else []) ++
  (if truthy aiT
   then [ {| text := aiT; type := ai; timestamp := dateNowAi clk |} ]
   else []).

(** Lines 213-228. *)
Definition flush (clk : Clock) (s : State) : State :=
  let userT := trim (currentInputTranscription s) in
  let aiT := trim (currentOutputTranscription s) in
  if truthy userT || truthy aiT then
    let s :=
      if truthy aiT
      then saveToDb {| text := aiT; type := ai; timestamp := dateNowAi clk |} s
      else s in
    let s :=
      set_transcriptions
        (slice_last 15 (transcriptions s ++ newEntries userT aiT clk)) s in
    set_currentOutputTranscription [] (set_currentInputTranscription [] s)
  else s.

(** Lines 230-234. *)
Definition interrupt (s : State) : State :=
  set_nextStartTimeRef 0 (stopSources s).

(** Lines 206-234: the part of the handler after the audio block. *)
Definition onmessage_tail (m : ServerMessage) (clk : Clock) (s : State)
    : State :=
  let s := appendFragments m s in
  let s := if turnComplete m then flush clk s else s in
  if interrupted m then interrupt s else s.

Definition has_audio (m : ServerMessage) (s : State) : bool :=
  truthy_opt (audioData m) && audioContextOut s.

(** A message arrives.  With an audio payload the handler runs line 195 and
    is suspended at [await decodeAudioData(...)]; otherwise it runs to its
    end. *)
Definition onmessage_arrive (m : ServerMessage) (clk : Clock) (s : State)
    : State :=
  if has_audio m s then
    let s := enqueue_begin (currentTime clk) s in
    set_pending (pending s ++ [m]) s
  else onmessage_tail m clk s.

(** The decoded buffer of the [j]-th suspended handler is ready: the
    handler resumes at line 197 and runs to its end. *)
Definition onmessage_resume (j : nat) (duration : N) (clk : Clock)
    (s : State) : State :=
  match pending s !! j with
  | Some m =>
      onmessage_tail m clk
        (enqueue_finish duration (set_pending (delete j (pending s)) s))
  | None => s
  end.

(** One whole run of the handler, nothing else running during its
    [await]. *)
Definition onmessage (m : ServerMessage) (duration : N) (clk : Clock)
    (s : State) : State :=
  if has_audio m s then
    onmessage_tail m clk (enqueue (currentTime clk) duration s)
  else onmessage_tail m clk s.

Definition transport_error_message : jsstring :=
  lit "API limit or connection issue. Please try again.".

(** [onerror] and [onclose] *)
Definition onerror (s : State) : State :=
  stopSession (set_error (Some transport_error_message) s).

Definition onclose (s : State) : State := stopSession s.

(** The action button: it is rendered with [onClick={startSession}] when
    [sessionState] is [DISCONNECTED] and with [onClick={stopSession}]
    otherwise. *)
Definition onClick (s : State) : State :=
  if bool_decide (sessionState s = DISCONNECTED)
  then startSession_begin s
  else stopSession s.

(** ** Event loop *)

Inductive Event :=
| UiClick
| MediaReady (k : nat) (stream : nat)
| SessionResolved (k : nat) (h : nat)
| StartFailed (k : nat) (msg : option jsstring)
| TransportOpen (k : nat)
| TransportMessage (m : ServerMessage) (clk : Clock)
| DecodeDone (j : nat) (duration : N) (clk : Clock)
| TransportError
| TransportClose
| TimerTick (i : positive) (frame : option jsstring)
| AudioProcess (p : nat) (pcm : jsstring)
| SourceEnded (src : nat).

(** Callbacks of an invocation that was never made, of a timer that was
    cleared or of a processor that was never created do not run. *)
Definition invoked (k : nat) (s : State) : bool :=
  match closures s !! k with Some _ => true | None => false end.

Definition step (e : Event) (s : State) : State :=
  match e with
  | UiClick => onClick s
  | MediaReady k stream =>
      if invoked k s then startSession_media stream s else s
  | SessionResolved k h =>
      if invoked k s then startSession_resolved h s else s
  | StartFailed k msg =>
      if invoked k s then startSession_catch msg s else s
  | TransportOpen k =>
      match closures s !! k with
      | Some seen => onopen k seen s
      | None => s
      end
  | TransportMessage m clk => onmessage_arrive m clk s
  | DecodeDone j duration clk => onmessage_resume j duration clk s
  | TransportError => onerror s
  | TransportClose => onclose s
  | TimerTick i frame =>
      match timers s !! i with
      | Some t => interval_callback t frame s
      | None => s
      end
  | AudioProcess p pcm =>
      match processors s !! p with
      | Some k => onaudioprocess k pcm s
      | None => s
      end
  | SourceEnded src => onended src s
  end.

Fixpoint run (es : list Event) (s : State) : State :=
  match es with
  | [] => s
  | e :: es' => run es' (step e s)
  end.

End Component.

(** ** Notions used in the statements *)




(** A call that submits a video frame to the transport. *)
Definition is_frame (e : Effect) : Prop :=
  match e with
  | SendRealtimeInput _ c => mimeType c = image_mime
  | _ => False
  end.

(** Every closure made so far holds [DISCONNECTED] as its
    [sessionState]. *)
Definition stale (s : State) : Prop :=
  Forall (λ c, c = DISCONNECTED) (closures s)
  ∧ map_Forall (λ _ t, timer_seen t = DISCONNECTED) (timers s).

(** No call throws. *)
Definition no_failure : Effect → bool := λ _, false.

(** The start times passed to [source.start], in call order. *)
Definition starts_of (l : list Effect) : list N :=
  flat_map (λ e, match e with SourceStart _ t _ => [t] | _ => [] end) l.

(** Sample inputs: a message that carries audio only, one that carries the
    interrupted flag only, one that carries both, clock readings at output
    time [t], and a session started through the action button whose
    transport has opened. *)
Definition audio_message : ServerMessage :=
  {| audioData := Some (lit "AAAA"); inputTranscription := None;
     outputTranscription := None; turnComplete := false;
     interrupted := false |}.

Definition interrupted_message : ServerMessage :=
  {| audioData := None; inputTranscription := None;
     outputTranscription := None; turnComplete := false;
     interrupted := true |}.

Definition interrupted_audio_message : ServerMessage :=
  {| audioData := Some (lit "AAAA"); inputTranscription := None;
     outputTranscription := None; turnComplete := false;
     interrupted := true |}.

Definition at_time (t : N) : Clock :=
  {| currentTime := t; dateNowUser := 0; dateNowAi := 0 |}.

Definition live_session : State :=
  run no_failure
    [UiClick; MediaReady 0 5; TransportOpen 0; SessionResolved 0 9]
    (mount None).

(** Sample messages of a turn: a fragment of the user's transcription, a
    fragment of the assistant's, and the end of the turn. *)
Definition user_fragment (t : jsstring) : ServerMessage :=
  {| audioData := None; inputTranscription := Some t;
     outputTranscription := None; turnComplete := false;
     interrupted := false |}.

Definition ai_fragment (t : jsstring) : ServerMessage :=
  {| audioData := None; inputTranscription := None;
     outputTranscription := Some t; turnComplete := false;
     interrupted := false |}.

Definition turn_complete_message : ServerMessage :=
  {| audioData := None; inputTranscription := None;
     outputTranscription := None; turnComplete := true;
     interrupted := false |}.


Definition logs (s : State)
    : list TranscriptionEntry * list TranscriptionEntry
      * option (list TranscriptionEntry) :=
  (transcriptions s, dbEntries s, localStorage s).

(** A string made of white space only. *)
Definition blank (s : jsstring) : Prop :=
  Forall (λ c, is_white_space c = true) s.

(** ** Notions used for the rest of the component *)

(** The calls [source.start(t)] of the log with the duration of their
    buffer, in call order. *)
Definition schedule (l : list Effect) : list (N * N) :=
  flat_map (λ e, match e with SourceStart _ t d => [(t, d)] | _ => [] end) l.

(** No buffer of the schedule starts before [from] or before the end of
    the buffer scheduled before it. *)
Fixpoint back_to_back (from : N) (l : list (N * N)) : Prop :=
  match l with
  | [] => True
  | (t, d) :: l' => from ≤ t ∧ back_to_back (t + d) l'
  end.

(** The end of the last buffer of the schedule, [from] when it is empty. *)
Fixpoint end_of (from : N) (l : list (N * N)) : N :=
  match l with
  | [] => from
  | (t, d) :: l' => end_of (t + d) l'
  end.

(** An event that delivers no interruption. *)
Definition quiet (e : Event) : Prop :=
  match e with
  | TransportMessage m _ => interrupted m = false
  | _ => True
  end.

(** An event whose handler runs lines 230-234 in state [s]. *)
Definition interrupting (e : Event) (s : State) : Prop :=
  match e with
  | TransportMessage m _ => interrupted m = true
  | DecodeDone j _ _ => ∃ m, pending s !! j = Some m ∧ interrupted m = true
  | _ => False
  end.

Definition on_schedule (s : State) : Prop :=
  back_to_back 0 (schedule (effects s))
  ∧ end_of 0 (schedule (effects s)) ≤ nextStartTimeRef s
  ∧ Forall (λ m, interrupted m = false) (pending s).



(** A message without audio payload that does not end the turn. *)
Definition plain (m : ServerMessage) : Prop :=
  truthy_opt (audioData m) = false ∧ turnComplete m = false.

(** The fragments of one channel carried by a list of messages, joined in
    order. *)
Definition fragments (f : ServerMessage → option jsstring)
    (ms : list ServerMessage) : jsstring :=
  concat (omap f ms).

Definition deliver (p : ServerMessage * Clock) : Event :=
  TransportMessage p.1 p.2.


(** [Observation #{dbEntries.length - idx}] of the memory view. *)
Definition observation_number (db : list TranscriptionEntry) (idx : nat)
    : nat :=
  (length db - idx)%nat.

(** [{error && ...}] of the action area: the banner is rendered when the
    error is truthy. *)
Definition error_banner (s : State) : bool := truthy_opt (error s).

Definition shown_or_absent (s : State) : Prop :=
  error s = None ∨ error_banner s = true.

(** The storage holds the memory log. *)
Definition persisted (s : State) : Prop :=
  default [] (localStorage s) = dbEntries s.

(** [source.start] was called on [src] in the log [l]. *)
Definition is_started (l : list Effect) (src : nat) : Prop :=
  ∃ t d, SourceStart src t d ∈ l.

(** Every call of [source.stop] in the log comes after a call of
    [source.start] on the same source. *)
Definition stops_follow_starts (l : list Effect) : Prop :=
  ∀ l1 l2 src, l = l1 ++ SourceStop src :: l2 → is_started l1 src.

Definition stop_ok (l : list Effect) (e : Effect) : Prop :=
  match e with
  | SourceStop src => is_started l src
  | _ => True
  end.

Definition tracked_started (s : State) : Prop :=
  (∀ src, src ∈ sourcesRef s → is_started (effects s) src)
  ∧ stops_follow_starts (effects s).

(** What the transcript part of the handler reads and writes: the two
    buffers and the logs. *)
Definition text_state (s : State)
    : jsstring * jsstring
      * (list TranscriptionEntry * list TranscriptionEntry
         * option (list TranscriptionEntry)) :=
  (currentInputTranscription s, currentOutputTranscription s, logs s).

(** * Properties *)

(** ** Basic facts about the callbacks *)

Section Facts.

Variable throws : Effect → bool.

Lemma try_catch_perform (e : Effect) (s : State) :
  try_catch (perform throws e) s = emit e s.
Proof. unfold try_catch, perform. destruct (throws e); reflexivity. Qed.

Lemma stop_each (l : list nat) (s : State) :
  foldl (λ s src, try_catch (perform throws (SourceStop src)) s) s l
  = set_effects (effects s ++ map SourceStop l) s.
Proof.
  revert s. induction l as [|src l IH]; intros s; simpl.
  - rewrite app_nil_r. reflexivity.
  - rewrite IH, try_catch_perform. unfold emit; simpl.
    rewrite <- app_assoc. reflexivity.
Qed.

Lemma stopSources_eq (s : State) :
  stopSources throws s
  = set_sourcesRef [] (set_effects (effects s ++ map SourceStop (sourcesRef s)) s).
Proof. unfold stopSources. rewrite stop_each. reflexivity. Qed.

End Facts.

(** ** Teardown *)

(** Unfold [stopSession] on [s] and split on the handles it looks at. *)
Ltac stop_cases s :=
  unfold stopSession;
  destruct (sessionRef s) eqn:?;
  rewrite ?try_catch_perform, !stopSources_eq;
  repeat case_match; simpl in *; try reflexivity; try congruence.

Section Teardown.

Variable throws : Effect → bool.

Lemma stopSession_state (s : State) :
  sessionState (stopSession throws s) = DISCONNECTED.
Proof.
  unfold stopSession. rewrite !stopSources_eq.
  repeat case_match; reflexivity.
Qed.

(** After [stopSession] every handle the component keeps is released. *)
Lemma stopSession_released (s : State) :
  let s' := stopSession throws s in
  sessionRef s' = None ∧ intervalRef s' = None ∧ sourcesRef s' = []
  ∧ videoSrcObject s' = None.
Proof.
  unfold stopSession. rewrite !stopSources_eq.
  repeat case_match; simpl in *; repeat split; try reflexivity; try assumption.
  all: try (destruct (sessionRef s); simpl in *; congruence).
Qed.

(** With nothing left to release, [stopSession] makes no call and leaves
    the state as it is. *)
Lemma stopSession_fixpoint (s : State) :
  sessionState s = DISCONNECTED → sessionRef s = None →
  intervalRef s = None → sourcesRef s = [] → videoSrcObject s = None →
  stopSession throws s = s.
Proof.
  destruct s; simpl; intros -> -> -> -> ->.
  unfold stopSession; simpl. rewrite stopSources_eq; simpl.
  unfold set_videoSrcObject, set_sessionState, set_sourcesRef, set_effects;
    simpl.
  rewrite app_nil_r. reflexivity.
Qed.

Lemma stopSession_twice (s : State) :
  stopSession throws (stopSession throws s) = stopSession throws s.
Proof.
  pose proof (stopSession_released s) as (H1 & H2 & H3 & H4).
  apply stopSession_fixpoint; auto using stopSession_state.
Qed.

Lemma stopSession_transcriptions (s : State) :
  transcriptions (stopSession throws s) = transcriptions s.
Proof. stop_cases s. Qed.

Lemma stopSession_dbEntries (s : State) :
  dbEntries (stopSession throws s) = dbEntries s.
Proof. stop_cases s. Qed.

End Teardown.

(** The outcome of [stopSession] is the same whichever of the guarded calls
    throw. *)
Lemma stopSession_any_failures (t1 t2 : Effect → bool) (s : State) :
  stopSession t1 s = stopSession t2 s.
Proof.
  unfold stopSession.
  destruct (sessionRef s); rewrite ?try_catch_perform, !stopSources_eq;
    reflexivity.
Qed.

(** C9: [stopSession] can be called in every state and ends in
    [DISCONNECTED]; a second call in a row changes nothing and makes no
    further release call (the log of calls is part of the state); errors
    thrown by the release calls are swallowed, the outcome being the same
    whichever of them throw; and every error path ([onerror], the [catch]
    block of [startSession], and [onclose]) ends in [DISCONNECTED], never in
    [CONNECTING] or [CONNECTED]. *)
Theorem stopSession_idempotent (throws : Effect → bool) (s : State) :
  sessionState (stopSession throws s) = DISCONNECTED
  ∧ stopSession throws (stopSession throws s) = stopSession throws s
  ∧ effects (stopSession throws (stopSession throws s))
    = effects (stopSession throws s)
  ∧ (∀ throws', stopSession throws' s = stopSession throws s)
  ∧ sessionState (onerror throws s) = DISCONNECTED
  ∧ sessionState (onclose throws s) = DISCONNECTED
  ∧ (∀ msg, sessionState (startSession_catch msg s) = DISCONNECTED).
Proof.
  repeat split.
  - apply stopSession_state.
  - apply stopSession_twice.
  - rewrite stopSession_twice. reflexivity.
  - intros t. apply stopSession_any_failures.
  - apply stopSession_state.
  - apply stopSession_state.
Qed.

(** C10: the transcript log is carried over from one session to the next.
    Neither [stopSession] nor any part of a following [startSession]
    (its synchronous start, the media set-up, the open callback, the
    resolution of the session promise, its [catch] block) touches
    [transcriptions] or the memory log; [startSession] resets the error
    message and moves the state to [CONNECTING]. *)
Theorem transcript_log_kept_across_sessions
    (throws : Effect → bool) (s : State) :
  transcriptions (stopSession throws s) = transcriptions s
  ∧ transcriptions (startSession_begin (stopSession throws s))
    = transcriptions s
  ∧ (∀ stream k seen h,
       transcriptions
         (startSession_resolved h
            (onopen k seen
               (startSession_media stream
                  (startSession_begin (stopSession throws s)))))
       = transcriptions s)
  ∧ (∀ msg,
       transcriptions (startSession_catch msg
                         (startSession_begin (stopSession throws s)))
       = transcriptions s)
  ∧ dbEntries (startSession_begin (stopSession throws s)) = dbEntries s
  ∧ error (startSession_begin (stopSession throws s)) = None
  ∧ sessionState (startSession_begin (stopSession throws s)) = CONNECTING.
Proof.
  repeat split; intros; simpl;
    auto using stopSession_transcriptions, stopSession_dbEntries.
Qed.

(** ** Session state machine *)

(** Unfold the part of [onmessage] that follows the audio block. *)
Ltac tail_cases :=
  unfold onmessage_tail, interrupt, flush, saveToDb, appendFragments;
  rewrite ?stopSources_eq;
  repeat case_match.

Section Machine.

Variable throws : Effect → bool.

Lemma run_invariant (P : State → Prop) :
  (∀ e s, P s → P (step throws e s)) →
  ∀ es s, P s → P (run throws es s).
Proof.
  intros Hstep es. induction es as [|e es IH]; intros s Hs; simpl; auto.
Qed.

Lemma onmessage_tail_sessionState m clk s :
  sessionState (onmessage_tail throws m clk s) = sessionState s.
Proof. tail_cases; reflexivity. Qed.

Lemma onmessage_tail_closures m clk s :
  closures (onmessage_tail throws m clk s) = closures s.
Proof. tail_cases; reflexivity. Qed.

Lemma onmessage_tail_timers m clk s :
  timers (onmessage_tail throws m clk s) = timers s.
Proof. tail_cases; reflexivity. Qed.

Lemma onmessage_tail_processors m clk s :
  processors (onmessage_tail throws m clk s) = processors s.
Proof. tail_cases; reflexivity. Qed.




End Machine.



(** ** Capture pipelines *)

Section Capture.

Variable throws : Effect → bool.

Lemma stopSession_closures (s : State) :
  closures (stopSession throws s) = closures s.
Proof. stop_cases s. Qed.

Lemma stopSession_timers (s : State) :
  timers (stopSession throws s)
  = match intervalRef s with
    | Some i => delete i (timers s)
    | None => timers s
    end.
Proof. stop_cases s. Qed.

Lemma stopSession_processors (s : State) :
  processors (stopSession throws s) = processors s.
Proof. stop_cases s. Qed.

Lemma stopSession_stale (s : State) :
  stale s → stale (stopSession throws s).
Proof.
  intros [Hc Ht]. unfold stale.
  rewrite stopSession_closures, stopSession_timers. split; [exact Hc|].
  case_match; [apply map_Forall_delete|]; exact Ht.
Qed.

(** The closures of [startSession] are made when the state is
    [DISCONNECTED], and that is the value they keep. *)
Lemma step_stale (e : Event) (s : State) :
  stale s → stale (step throws e s).
Proof.
  intros Hs. pose proof Hs as [Hc Ht].
  destruct e; simpl.
  - unfold onClick. case_bool_decide as Hd.
    + split; [|exact Ht]. simpl. apply Forall_app. split; [exact Hc|].
      repeat constructor. exact Hd.
    + apply stopSession_stale, Hs.
  - case_match; simpl; auto.
  - case_match; simpl; auto.
  - case_match; simpl; auto.
  - destruct (closures s !! k) as [seen|] eqn:Hk; simpl; [|auto].
    split; [exact Hc|]. apply map_Forall_insert_2; [|exact Ht]. simpl.
    eapply (proj1 (Forall_lookup _ _) Hc). exact Hk.
  - unfold onmessage_arrive, stale. case_match; simpl; [auto|].
    rewrite onmessage_tail_closures, onmessage_tail_timers. auto.
  - unfold onmessage_resume, stale. case_match; simpl; [|auto].
    rewrite onmessage_tail_closures, onmessage_tail_timers. auto.
  - apply stopSession_stale. exact Hs.
  - apply stopSession_stale. exact Hs.
  - case_match; [|auto]. unfold interval_callback.
    repeat case_match; simpl; auto.
  - case_match; simpl; auto.
  - simpl. auto.
Qed.

Ltac no_frames :=
  unfold emit; simpl;
  rewrite ?Forall_app, ?Forall_cons, ?Forall_nil, ?Forall_map; simpl;
  repeat split; auto; try (apply Forall_true; simpl; auto).

Lemma stopSession_frames (s : State) :
  Forall (λ e, ¬ is_frame e) (effects s) →
  Forall (λ e, ¬ is_frame e) (effects (stopSession throws s)).
Proof. intros H. stop_cases s; no_frames. Qed.

Lemma onmessage_tail_frames m clk s :
  Forall (λ e, ¬ is_frame e) (effects s) →
  Forall (λ e, ¬ is_frame e) (effects (onmessage_tail throws m clk s)).
Proof. intros H. tail_cases; no_frames. Qed.

Lemma step_frames (e : Event) (s : State) :
  stale s →
  Forall (λ e, ¬ is_frame e) (effects s) →
  Forall (λ e, ¬ is_frame e) (effects (step throws e s)).
Proof.
  intros [Hc Ht] H. destruct e; simpl.
  - unfold onClick. case_bool_decide; [exact H|].
    apply stopSession_frames, H.
  - case_match; exact H.
  - case_match; exact H.
  - case_match; exact H.
  - case_match; exact H.
  - unfold onmessage_arrive. case_match; [exact H|].
    apply onmessage_tail_frames, H.
  - unfold onmessage_resume. case_match; [|exact H].
    apply onmessage_tail_frames. unfold enqueue_finish. no_frames.
  - apply stopSession_frames, H.
  - apply stopSession_frames, H.
  - destruct (timers s !! i) as [t|] eqn:Hi; [|exact H].
    unfold interval_callback. apply Ht in Hi. simpl in Hi. rewrite Hi.
    rewrite bool_decide_eq_false_2 by discriminate. exact H.
  - case_match; [|exact H]. unfold onaudioprocess. no_frames.
  - exact H.
Qed.

(** Whatever the user and the transport do, the interval callback never
    submits a frame. *)
Lemma no_frame_is_ever_sent saved es :
  Forall (λ e, ¬ is_frame e) (effects (run throws es (mount saved))).
Proof.
  apply (run_invariant throws
           (λ s, stale s ∧ Forall (λ e, ¬ is_frame e) (effects s))).
  - intros e s [Hs Hf]. split; [apply step_stale, Hs|apply step_frames; auto].
  - split; [split|]; simpl.
    + constructor.
    + apply map_Forall_empty.
    + constructor.
Qed.

(** No step removes an audio processor. *)
Lemma processors_are_kept (e : Event) (s : State) :
  processors s `prefix_of` processors (step throws e s).
Proof.
  destruct e; simpl.
  - unfold onClick. case_bool_decide; [reflexivity|].
    rewrite stopSession_processors. reflexivity.
  - case_match; reflexivity.
  - case_match; reflexivity.
  - case_match; reflexivity.
  - case_match; simpl; [apply prefix_app_r|]; reflexivity.
  - unfold onmessage_arrive. case_match; [reflexivity|].
    rewrite onmessage_tail_processors. reflexivity.
  - unfold onmessage_resume. case_match; [|reflexivity].
    rewrite onmessage_tail_processors. reflexivity.
  - unfold onerror. rewrite stopSession_processors. reflexivity.
  - unfold onclose. rewrite stopSession_processors. reflexivity.
  - case_match; [|reflexivity]. unfold interval_callback.
    repeat case_match; reflexivity.
  - case_match; reflexivity.
  - reflexivity.
Qed.

End Capture.

(** C2 fails on the code.  Start through the action button, let the
    transport open and the session promise resolve: the state is
    [CONNECTED] and the interval timer is live, but its callback tests the
    [sessionState] of the render that created [startSession], which is
    [DISCONNECTED]; a tick with a frame at hand submits nothing. *)
Theorem connected_tick_submits_no_frame :
  let s := run no_failure
             [UiClick; MediaReady 0 5; TransportOpen 0; SessionResolved 0 9]
             (mount None) in
  sessionState s = CONNECTED
  ∧ intervalRef s = Some 1%positive
  ∧ timers s !! 1%positive
    = Some {| timer_inv := 0; timer_seen := DISCONNECTED |}
  ∧ ∀ frame, step no_failure (TimerTick 1 (Some frame)) s = s.
Proof. repeat split. Qed.

(** C8 fails on the code.  After a session was opened and stopped, the
    audio processor created by the open callback is still wired, and its
    next block is submitted to the transport.  And when a first start is
    stopped before its transport opened and a second start follows, both
    open callbacks run: two timers and two processors are live in one
    session, and [stopSession] clears the second timer only. *)
Theorem pipelines_outlive_stop :
  (let s := run no_failure
              [UiClick; MediaReady 0 5; TransportOpen 0; SessionResolved 0 9;
               UiClick]
              (mount None) in
   sessionState s = DISCONNECTED
   ∧ processors s = [0%nat]
   ∧ ∀ pcm, effects (step no_failure (AudioProcess 0 pcm) s)
            = effects s
              ++ [SendRealtimeInput 0 {| data := pcm; mimeType := audio_mime |}])
  ∧ (let s := run no_failure
                [UiClick; UiClick; UiClick; TransportOpen 0; TransportOpen 1]
                (mount None) in
     sessionState s = CONNECTED
     ∧ size (timers s) = 2%nat
     ∧ processors s = [0%nat; 1%nat]
     ∧ size (timers (stopSession no_failure s)) = 1%nat).
Proof. repeat split. Qed.

(** ** Playback scheduler *)

Lemma starts_of_app (l1 l2 : list Effect) :
  starts_of (l1 ++ l2) = starts_of l1 ++ starts_of l2.
Proof. unfold starts_of. apply flat_map_app. Qed.

(** The audio block schedules the buffer at the later of the cursor and
    the clock, moves the cursor to the end of the buffer and tracks the
    source. *)
Lemma enqueue_effects (now d : N) (s : State) :
  effects (enqueue now d s)
  = effects s
    ++ [SourceStart (nextSource s) (N.max (nextStartTimeRef s) now) d].
Proof. reflexivity. Qed.

Lemma enqueue_cursor (now d : N) (s : State) :
  nextStartTimeRef (enqueue now d s) = N.max (nextStartTimeRef s) now + d.
Proof. reflexivity. Qed.



Section Playback.

Variable throws : Effect → bool.

Lemma onmessage_tail_interrupted m clk s :
  interrupted m = true →
  let s' := onmessage_tail throws m clk s in
  sourcesRef s' = [] ∧ nextStartTimeRef s' = 0
  ∧ ∀ src, src ∈ sourcesRef s → SourceStop src ∈ effects s'.
Proof.
  intros Hi. unfold onmessage_tail. rewrite Hi.
  set (s1 := if turnComplete m then _ else _).
  assert (H1 : sourcesRef s1 = sourcesRef s).
  { unfold s1, flush, saveToDb, appendFragments.
    repeat case_match; reflexivity. }
  cbv zeta. unfold interrupt. rewrite stopSources_eq. simpl. repeat split.
  intros src Hsrc. apply elem_of_app. right. rewrite H1.
  apply list_elem_of_fmap. eauto.
Qed.

(** The event loop takes the events one after the other. *)
Lemma run_app (es1 es2 : list Event) (s : State) :
  run throws (es1 ++ es2) s = run throws es2 (run throws es1 s).
Proof. revert s. induction es1 as [|e es1 IH]; intros s; simpl; auto. Qed.

Lemma starts_of_stops (l : list nat) : starts_of (map SourceStop l) = [].
Proof. induction l; simpl; auto. Qed.

Lemma onmessage_tail_starts m clk s :
  starts_of (effects (onmessage_tail throws m clk s)) = starts_of (effects s).
Proof.
  tail_cases; unfold emit; simpl;
    rewrite ?starts_of_app, ?starts_of_stops; simpl; rewrite ?app_nil_r;
    reflexivity.
Qed.

Lemma onmessage_tail_pending m clk s :
  pending (onmessage_tail throws m clk s) = pending s.
Proof. tail_cases; reflexivity. Qed.

(** What the handler does after the audio block does not read the
    cursor, and an interruption overwrites it. *)
Lemma appendFragments_set_cursor m c s :
  appendFragments m (set_nextStartTimeRef c s)
  = set_nextStartTimeRef c (appendFragments m s).
Proof.
  unfold appendFragments.
  destruct (inputTranscription m), (outputTranscription m); reflexivity.
Qed.

Lemma flush_set_cursor clk c s :
  flush clk (set_nextStartTimeRef c s) = set_nextStartTimeRef c (flush clk s).
Proof.
  unfold flush.
  cbn [currentInputTranscription currentOutputTranscription
       set_nextStartTimeRef].
  destruct (truthy (trim (currentInputTranscription s))),
    (truthy (trim (currentOutputTranscription s))); reflexivity.
Qed.

Lemma interrupt_set_cursor c s :
  interrupt throws (set_nextStartTimeRef c s) = interrupt throws s.
Proof. unfold interrupt. rewrite !stopSources_eq. reflexivity. Qed.

Lemma onmessage_tail_set_cursor m clk c s :
  interrupted m = true →
  onmessage_tail throws m clk (set_nextStartTimeRef c s)
  = onmessage_tail throws m clk s.
Proof.
  intros Hi. unfold onmessage_tail. rewrite Hi, appendFragments_set_cursor.
  destruct (turnComplete m); rewrite ?flush_set_cursor;
    apply interrupt_set_cursor.
Qed.

(** A handler that is resumed before anything else happens has run its
    audio block in one piece. *)
Lemma onmessage_unsplit m d clk clk' s :
  has_audio m s = true →
  onmessage_resume throws (length (pending s)) d clk'
    (onmessage_arrive throws m clk s)
  = onmessage_tail throws m clk' (enqueue (currentTime clk) d s).
Proof.
  intros Ha. unfold onmessage_arrive, onmessage_resume. rewrite Ha. simpl.
  rewrite lookup_app_r by lia. rewrite Nat.sub_diag. simpl.
  rewrite (delete_middle (pending s) [] m), app_nil_r.
  reflexivity.
Qed.

Lemma onmessage_is_arrive_resume m d clk s :
  has_audio m s = true →
  run throws [TransportMessage m clk; DecodeDone (length (pending s)) d clk] s
  = onmessage throws m d clk s.
Proof.
  intros Ha. simpl. rewrite onmessage_unsplit by exact Ha.
  unfold onmessage. rewrite Ha. reflexivity.
Qed.

Lemma onmessage_is_arrive m d clk s :
  has_audio m s = false →
  step throws (TransportMessage m clk) s = onmessage throws m d clk s.
Proof.
  intros Ha. simpl. unfold onmessage_arrive, onmessage. rewrite Ha.
  reflexivity.
Qed.

End Playback.

(** C4, as stated, fails: with the cursor at 0, a buffer of one frame
    enqueued at clock 0 and two more enqueued at clock 5 start at 0, 5 and
    6, not at 0, 1 and 2. *)
Lemma cumulative_starts_need_a_slow_clock :
  starts_of (effects (enqueue 5 1 (enqueue 5 1 (enqueue 0 1 (mount None)))))
  = [0; 5; 6]
  ∧ [0; 5; 6] ≠ [N.max 0 0; N.max 0 0 + 1; N.max 0 0 + 1 + 1].
Proof. split; [reflexivity|discriminate]. Qed.

(** C4, amended: every enqueued buffer is scheduled at [max(cursor, now)]
    and the cursor then moves to start + duration.  Three buffers enqueued
    in a row with no interruption never overlap (each starts no earlier
    than the end of the one before), and they start at [t0], [t0+d1],
    [t0+d1+d2] with no gap provided that the clock has not passed the
    cursor when the second and the third are enqueued (when it has, the
    buffer starts at the clock reading). *)
Theorem enqueue_schedule (s : State) (n1 d1 n2 d2 n3 d3 : N) :
  let t0 := N.max (nextStartTimeRef s) n1 in
  let s1 := enqueue n1 d1 s in
  let s2 := enqueue n2 d2 s1 in
  let s3 := enqueue n3 d3 s2 in
  let t1 := N.max (t0 + d1) n2 in
  let t2 := N.max (t1 + d2) n3 in
  (effects s1 = effects s ++ [SourceStart (nextSource s) t0 d1]
   ∧ nextStartTimeRef s1 = t0 + d1)
  ∧ (effects s2 = effects s1 ++ [SourceStart (nextSource s1) t1 d2]
     ∧ nextStartTimeRef s2 = t1 + d2)
  ∧ (effects s3 = effects s2 ++ [SourceStart (nextSource s2) t2 d3]
     ∧ nextStartTimeRef s3 = t2 + d3)
  ∧ starts_of (effects s3) = starts_of (effects s) ++ [t0; t1; t2]
  ∧ t0 + d1 ≤ t1 ∧ t1 + d2 ≤ t2
  ∧ (n2 ≤ t0 + d1 → n3 ≤ t0 + d1 + d2 →
     starts_of (effects s3)
     = starts_of (effects s) ++ [t0; t0 + d1; t0 + d1 + d2]
     ∧ nextStartTimeRef s3 = t0 + d1 + d2 + d3).
Proof.
  intros t0 s1 s2 s3 t1 t2.
  assert (Hs : starts_of (effects s3) = starts_of (effects s) ++ [t0; t1; t2]).
  { unfold s3, s2, s1. rewrite !enqueue_effects, !starts_of_app. simpl.
    rewrite <- !app_assoc. reflexivity. }
  assert (Hgap : n2 ≤ t0 + d1 → n3 ≤ t0 + d1 + d2 →
                 t1 = t0 + d1 ∧ t2 = t0 + d1 + d2).
  { unfold t2, t1. lia. }
  repeat split; try reflexivity; try exact Hs; try (unfold t1, t2; lia).
  - destruct Hgap as [E1 E2]; [assumption..|]. rewrite Hs, E1, E2.
    reflexivity.
  - destruct Hgap as [E1 E2]; [assumption..|].
    change (nextStartTimeRef s3) with (t2 + d3). rewrite E2. reflexivity.
Qed.

(** Two chunks of 0.5 s and 0.3 s and a third of 0.1 s, enqueued at device
    time 2.0 s with the cursor at 0: starts at 2.0 s, 2.5 s and 2.8 s. *)
Lemma enqueue_schedule_witness :
  (48000 ≤ N.max 0 48000 + 12000 ∧ 48000 ≤ N.max 0 48000 + 12000 + 7200)
  ∧ starts_of
      (effects
         (enqueue 48000 2400
            (enqueue 48000 7200 (enqueue 48000 12000 (mount None)))))
    = [48000; 60000; 67200]
  ∧ nextStartTimeRef
      (enqueue 48000 2400
         (enqueue 48000 7200 (enqueue 48000 12000 (mount None))))
    = 69600.
Proof.
  split; [split; vm_compute; discriminate|].
  apply (enqueue_schedule (mount None) 48000 12000 48000 7200 48000 2400);
    vm_compute; discriminate.
Defined.

(** Two chunks of 0.5 s and 0.3 s delivered at device time 2.0 s with the
    cursor at 0: the cursor ends at 2.8 s, two handles are tracked, and they
    are removed when their playback ends. *)
Example two_chunks_scenario :
  let s := run no_failure
             [TransportMessage audio_message (at_time 48000);
              DecodeDone 0 12000 (at_time 48000);
              TransportMessage audio_message (at_time 48000);
              DecodeDone 0 7200 (at_time 48000)]
             live_session in
  starts_of (effects s) = [48000; 60000]
  ∧ nextStartTimeRef s = 67200
  ∧ sourcesRef s = [0%nat; 1%nat]
  ∧ sourcesRef (run no_failure [SourceEnded 0; SourceEnded 1] s) = [].
Proof. repeat split. Qed.



(** C3, as stated, fails: the handler is suspended at
    [await decodeAudioData(...)] and the transport does not wait for it, so
    the handlers of two events can overlap.  An audio message arrives at
    clock 48000 and, while its buffer is being decoded, an interrupted
    message arrives and is handled; the audio handler then resumes, starts
    its buffer at the reset cursor and tracks it.  Handled one at a time in
    arrival order the same two messages leave nothing in flight.  And when
    the interrupted message itself carries audio, the handler of an audio
    message that arrives during its decoding has run line 195 while the
    handles are still in flight. *)
Lemma interruption_overtaken_by_pending_audio :
  (let s := run no_failure
              [TransportMessage audio_message (at_time 48000);
               TransportMessage interrupted_message (at_time 48100);
               DecodeDone 0 12000 (at_time 48200)]
              live_session in
   sourcesRef s = [0%nat]
   ∧ nextStartTimeRef s = 12000
   ∧ effects s = [SourceStart 0 0 12000])
  ∧ (let s := onmessage no_failure interrupted_message 0 (at_time 48100)
                (onmessage no_failure audio_message 12000 (at_time 48000)
                   live_session) in
     sourcesRef s = []
     ∧ nextStartTimeRef s = 0
     ∧ effects s = [SourceStart 0 48000 12000; SourceStop 0])
  ∧ (let s := run no_failure
                [TransportMessage interrupted_audio_message (at_time 48100);
                 TransportMessage audio_message (at_time 48200)]
                (enqueue 48000 12000 live_session) in
     sourcesRef s = [0%nat]
     ∧ nextStartTimeRef s = 60000
     ∧ pending s = [interrupted_audio_message; audio_message]).
Proof. repeat split. Qed.

(** C3, amended: the event loop takes the inbound events one after the
    other, and the handler of a message without audio payload has no
    suspension point: it has run to its end when the next event is taken.
    So an interrupted event without audio payload takes effect on arrival:
    every handle in flight is stopped, the in-flight set is emptied and the
    cursor is 0 before any later event is processed.  The state it leaves
    is the same whatever the cursor was before it, and an audio buffer that
    is delivered and decoded next is scheduled at the reading of the device
    clock at its arrival. *)
Theorem interruption_precedes_later_audio
    (throws : Effect → bool) (m : ServerMessage) (clk : Clock) (s : State) :
  interrupted m = true →
  has_audio m s = false →
  let s' := step throws (TransportMessage m clk) s in
  pending s' = pending s
  ∧ sourcesRef s' = []
  ∧ nextStartTimeRef s' = 0
  ∧ (∀ src, src ∈ sourcesRef s → SourceStop src ∈ effects s')
  ∧ (∀ c, step throws (TransportMessage m clk) (set_nextStartTimeRef c s)
          = s')
  ∧ (∀ m2 clk2 d clk3,
       has_audio m2 s' = true →
       starts_of
         (effects
            (run throws
               [TransportMessage m2 clk2;
                DecodeDone (length (pending s')) d clk3] s'))
       = starts_of (effects s') ++ [currentTime clk2])
  ∧ (∀ es1 es2 s0,
       run throws (es1 ++ es2) s0 = run throws es2 (run throws es1 s0)).
Proof.
  intros Hi Ha s'.
  assert (Es : s' = onmessage_tail throws m clk s).
  { unfold s'. simpl. unfold onmessage_arrive. rewrite Ha. reflexivity. }
  destruct (onmessage_tail_interrupted throws m clk s Hi) as (H1 & H2 & H3).
  rewrite <- Es in H1, H2, H3.
  split; [rewrite Es; apply onmessage_tail_pending|].
  split; [exact H1|]. split; [exact H2|]. split; [exact H3|].
  split; [|split].
  - intros c. rewrite Es. simpl. unfold onmessage_arrive.
    change (has_audio m (set_nextStartTimeRef c s)) with (has_audio m s).
    rewrite Ha. apply onmessage_tail_set_cursor, Hi.
  - intros m2 clk2 d clk3 Ha2. simpl.
    rewrite onmessage_unsplit by exact Ha2.
    rewrite onmessage_tail_starts, enqueue_effects, starts_of_app, H2.
    simpl. rewrite N.max_r by apply N.le_0_l. reflexivity.
  - intros es1 es2 s0. apply run_app.
Qed.

(** An interruption with two buffers in flight and the cursor at 10. *)
Lemma interruption_precedes_later_audio_witness :
  (interrupted interrupted_message = true
   ∧ has_audio interrupted_message (enqueue 0 5 (enqueue 0 5 live_session))
     = false)
  ∧ (let s := enqueue 0 5 (enqueue 0 5 live_session) in
     let s' := step no_failure
                 (TransportMessage interrupted_message (at_time 7)) s in
     nextStartTimeRef s = 10
     ∧ sourcesRef s = [0%nat; 1%nat]
     ∧ sourcesRef s' = []
     ∧ nextStartTimeRef s' = 0
     ∧ starts_of
         (effects
            (run no_failure
               [TransportMessage audio_message (at_time 8);
                DecodeDone 0 12000 (at_time 9)] s'))
       = starts_of (effects s') ++ [8]).
Proof.
  split; [split; reflexivity|]. cbv zeta.
  split; [reflexivity|]. split; [reflexivity|].
  destruct (interruption_precedes_later_audio no_failure interrupted_message
              (at_time 7) (enqueue 0 5 (enqueue 0 5 live_session))
              eq_refl eq_refl)
    as (_ & H1 & H2 & _ & _ & H3 & _).
  split; [exact H1|]. split; [exact H2|].
  apply (H3 audio_message (at_time 8) 12000 (at_time 9)). reflexivity.
Defined.

(** ** Transcript aggregation and the two logs *)


(** One entry for each trimmed buffer that is not empty, the user's
    first. *)
Lemma newEntries_shape (userT aiT : jsstring) (clk : Clock) :
  map (λ e, (text e, type e)) (newEntries userT aiT clk)
  = filter (λ p, p.1 ≠ []) [(userT, user); (aiT, ai)].
Proof. unfold newEntries. destruct userT, aiT; reflexivity. Qed.

Lemma newEntries_length (userT aiT : jsstring) (clk : Clock) :
  (length (newEntries userT aiT clk) ≤ 2)%nat.
Proof. unfold newEntries. destruct userT, aiT; simpl; lia. Qed.

Lemma saveToDb_dbEntries (e : TranscriptionEntry) (s : State) :
  dbEntries (saveToDb e s) = e :: take 49 (dbEntries s).
Proof. reflexivity. Qed.



Lemma flush_transcriptions (clk : Clock) (s : State) :
  let userT := trim (currentInputTranscription s) in
  let aiT := trim (currentOutputTranscription s) in
  transcriptions (flush clk s)
  = if truthy userT || truthy aiT
    then slice_last 15 (transcriptions s ++ newEntries userT aiT clk)
    else transcriptions s.
Proof. unfold flush. repeat case_match; reflexivity. Qed.

Lemma flush_buffers (clk : Clock) (s : State) :
  let userT := trim (currentInputTranscription s) in
  let aiT := trim (currentOutputTranscription s) in
  currentInputTranscription (flush clk s)
  = (if truthy userT || truthy aiT then [] else currentInputTranscription s)
  ∧ currentOutputTranscription (flush clk s)
    = (if truthy userT || truthy aiT then []
       else currentOutputTranscription s).
Proof. unfold flush. repeat case_match; split; reflexivity. Qed.



Section Logs.

Variable throws : Effect → bool.


Lemma stopSession_logs (s : State) : logs (stopSession throws s) = logs s.
Proof. stop_cases s. Qed.


End Logs.

(** *** Trimming *)

Lemma trimStart_nil (s : jsstring) : trimStart s = [] → blank s.
Proof.
  induction s as [|c s IH]; simpl; intros H; [constructor|].
  destruct (is_white_space c) eqn:Hc; [|discriminate].
  apply Forall_cons. split; [exact Hc|exact (IH H)].
Qed.

Lemma trimStart_blank_app (w x : jsstring) :
  blank w → trimStart (w ++ x) = trimStart x.
Proof.
  induction 1 as [|c w Hc _ IH]; simpl; [reflexivity|]. rewrite Hc. exact IH.
Qed.

Lemma trimStart_head (s : jsstring) (c : N) (r : jsstring) :
  trimStart s = c :: r → is_white_space c = false.
Proof.
  induction s as [|a s IH]; simpl; [discriminate|].
  destruct (is_white_space a) eqn:Ha; [exact IH|].
  intros [= <- _]. exact Ha.
Qed.

Lemma trim_nil (w : jsstring) : trim w = [] → blank w.
Proof.
  unfold trim, trimEnd. intros H.
  apply (f_equal (@rev N)) in H. rewrite rev_involutive in H. simpl in H.
  apply trimStart_nil in H. unfold blank in H.
  apply trimStart_nil.
  destruct (trimStart w) as [|c r] eqn:E; [reflexivity|].
  apply trimStart_head in E.
  assert (Hc : is_white_space c = true).
  { eapply (proj1 (Forall_forall _ _) H).
    apply list_elem_of_In, in_rev. rewrite rev_involutive. left. reflexivity. }
  congruence.
Qed.

Lemma trim_blank_app (w x : jsstring) : trim w = [] → trim (w ++ x) = trim x.
Proof.
  intros H. unfold trim.
  rewrite trimStart_blank_app by apply trim_nil, H. reflexivity.
Qed.

(** Buffers that trim to the empty string and are kept across the end of
    a turn change none of the entries made afterwards. *)
Lemma kept_blank_buffers_change_no_entry
    (clk : Clock) (m : ServerMessage) (s : State) :
  trim (currentInputTranscription s) = [] →
  trim (currentOutputTranscription s) = [] →
  transcriptions (flush clk (appendFragments m s))
  = transcriptions
      (flush clk
         (appendFragments m
            (set_currentOutputTranscription []
               (set_currentInputTranscription [] s)))).
Proof.
  intros Hi Ho. rewrite !flush_transcriptions. unfold appendFragments.
  destruct (inputTranscription m) as [ti|], (outputTranscription m) as [to|];
    cbn [currentInputTranscription currentOutputTranscription transcriptions
         set_currentInputTranscription set_currentOutputTranscription];
    rewrite ?trim_blank_app by assumption; rewrite ?Hi, ?Ho; reflexivity.
Qed.

(** C6, as stated, fails: when both buffers trim to the empty string the
    handler leaves them as they are.  After a fragment that is one space
    and the end of the turn, the user buffer still holds the space. *)
Lemma blank_buffers_are_not_reset :
  let s := run no_failure
             [TransportMessage (user_fragment (lit " ")) (at_time 0);
              TransportMessage turn_complete_message (at_time 0)]
             (mount None) in
  currentInputTranscription s = lit " "
  ∧ currentInputTranscription s ≠ []
  ∧ transcriptions s = [].
Proof. repeat split. discriminate. Qed.

(** C6, amended: at the end of a turn both buffers are trimmed and one
    entry is made for each trimmed buffer that is not empty (none, one or
    two, the user's first), appended to the transcript log; both buffers
    are reset to empty when at least one entry was made, and are left
    unchanged when both trim to the empty string.  The fragments "Hello "
    and "world" of the user give the single entry "Hello world"; with both
    buffers empty no entry is made. *)
Theorem flush_entries (clk : Clock) (s : State) :
  let userT := trim (currentInputTranscription s) in
  let aiT := trim (currentOutputTranscription s) in
  let made := truthy userT || truthy aiT in
  map (λ e, (text e, type e)) (newEntries userT aiT clk)
  = filter (λ p, p.1 ≠ []) [(userT, user); (aiT, ai)]
  ∧ (length (newEntries userT aiT clk) ≤ 2)%nat
  ∧ transcriptions (flush clk s)
    = (if made
       then slice_last 15 (transcriptions s ++ newEntries userT aiT clk)
       else transcriptions s)
  ∧ currentInputTranscription (flush clk s)
    = (if made then [] else currentInputTranscription s)
  ∧ currentOutputTranscription (flush clk s)
    = (if made then [] else currentOutputTranscription s)
  ∧ transcriptions
      (run no_failure
         [TransportMessage (user_fragment (lit "Hello ")) clk;
          TransportMessage (user_fragment (lit "world")) clk;
          TransportMessage turn_complete_message clk]
         (mount None))
    = [ {| text := lit "Hello world"; type := user;
           timestamp := dateNowUser clk |} ]
  ∧ newEntries (trim []) (trim []) clk = []
  ∧ flush clk (mount None) = mount None.
Proof.
  intros userT aiT made.
  split; [apply newEntries_shape|].
  split; [apply newEntries_length|].
  split; [apply flush_transcriptions|].
  split; [apply flush_buffers|].
  split; [apply flush_buffers|].
  repeat split.
Qed.



(** * The rest of the component *)

(** ** Playback along arbitrary runs *)

Lemma back_to_back_snoc (from : N) (l : list (N * N)) (t d : N) :
  back_to_back from (l ++ [(t, d)])
  ↔ back_to_back from l ∧ end_of from l ≤ t.
Proof.
  revert from. induction l as [|[t' d'] l IH]; intros from; simpl.
  - tauto.
  - rewrite IH. tauto.
Qed.

Lemma end_of_snoc (from : N) (l : list (N * N)) (t d : N) :
  end_of from (l ++ [(t, d)]) = t + d.
Proof.
  revert from. induction l as [|[t' d'] l IH]; intros from; simpl; auto.
Qed.

Lemma schedule_app (l1 l2 : list Effect) :
  schedule (l1 ++ l2) = schedule l1 ++ schedule l2.
Proof. unfold schedule. apply flat_map_app. Qed.

Lemma schedule_stops (l : list nat) : schedule (map SourceStop l) = [].
Proof. induction l; simpl; auto. Qed.

Section Schedule.

Variable throws : Effect → bool.

Lemma run_invariant_on (Q : Event → Prop) (P : State → Prop) :
  (∀ e s, Q e → P s → P (step throws e s)) →
  ∀ es s, Forall Q es → P s → P (run throws es s).
Proof.
  intros Hstep es. induction es as [|e es IH]; intros s Hq Hs; simpl; auto.
  inversion Hq; subst. apply IH; auto.
Qed.

Lemma onmessage_tail_cursor m clk s :
  nextStartTimeRef (onmessage_tail throws m clk s)
  = if interrupted m then 0 else nextStartTimeRef s.
Proof. tail_cases; reflexivity. Qed.

Lemma onmessage_tail_schedule m clk s :
  schedule (effects (onmessage_tail throws m clk s)) = schedule (effects s).
Proof.
  tail_cases; unfold emit; simpl;
    rewrite ?schedule_app, ?schedule_stops; simpl; rewrite ?app_nil_r;
    reflexivity.
Qed.

Lemma stopSession_cursor (s : State) :
  nextStartTimeRef (stopSession throws s) = nextStartTimeRef s.
Proof. stop_cases s. Qed.

Lemma stopSession_pending (s : State) :
  pending (stopSession throws s) = pending s.
Proof. stop_cases s. Qed.

Lemma stopSession_schedule (s : State) :
  schedule (effects (stopSession throws s)) = schedule (effects s).
Proof.
  stop_cases s; unfold emit; simpl;
    rewrite ?schedule_app, ?schedule_stops; simpl; rewrite ?app_nil_r;
    reflexivity.
Qed.

Lemma onmessage_tail_on_schedule m clk s :
  interrupted m = false →
  on_schedule s → on_schedule (onmessage_tail throws m clk s).
Proof.
  intros Hi (H1 & H2 & H3). unfold on_schedule.
  rewrite onmessage_tail_schedule, onmessage_tail_cursor,
    onmessage_tail_pending, Hi.
  auto.
Qed.

Lemma stopSession_on_schedule (s : State) :
  on_schedule s → on_schedule (stopSession throws s).
Proof.
  intros (H1 & H2 & H3). unfold on_schedule.
  rewrite stopSession_schedule, stopSession_cursor, stopSession_pending.
  auto.
Qed.

Lemma step_on_schedule (e : Event) (s : State) :
  quiet e → on_schedule s → on_schedule (step throws e s).
Proof.
  intros Hq Hs. pose proof Hs as (H1 & H2 & H3).
  destruct e; simpl in *; try exact Hs.
  - unfold onClick. case_bool_decide; [exact Hs|].
    apply stopSession_on_schedule, Hs.
  - case_match; exact Hs.
  - case_match; exact Hs.
  - case_match; exact Hs.
  - case_match; exact Hs.
  - unfold onmessage_arrive. case_match.
    + unfold on_schedule; simpl. split; [exact H1|]. split; [lia|].
      apply Forall_app. split; [exact H3|]. repeat constructor. exact Hq.
    + apply onmessage_tail_on_schedule; assumption.
  - unfold onmessage_resume.
    destruct (pending s !! j) as [m|] eqn:Hj; [|exact Hs].
    apply onmessage_tail_on_schedule.
    + exact (proj1 (Forall_lookup _ _) H3 _ _ Hj).
    + unfold on_schedule, enqueue_finish, emit; simpl.
      rewrite schedule_app; simpl. rewrite back_to_back_snoc, end_of_snoc.
      split; [split; assumption|]. split; [lia|]. apply Forall_delete, H3.
  - apply stopSession_on_schedule. exact Hs.
  - apply stopSession_on_schedule. exact Hs.
  - case_match; [|exact Hs]. unfold interval_callback.
    repeat case_match; try exact Hs.
    unfold on_schedule, emit; simpl. rewrite schedule_app; simpl.
    rewrite app_nil_r. exact Hs.
  - case_match; [|exact Hs].
    unfold on_schedule, onaudioprocess, emit; simpl.
    rewrite schedule_app; simpl. rewrite app_nil_r. exact Hs.
Qed.

End Schedule.

(** X1: the cursor never moves back except to 0 when an interruption is
    handled: every step of the component leaves [nextStartTimeRef] where it
    is or moves it forward, unless the step runs the interrupted block of
    a message, which sets it to 0. *)
Theorem cursor_only_falls_on_interruption
    (throws : Effect → bool) (e : Event) (s : State) :
  nextStartTimeRef s ≤ nextStartTimeRef (step throws e s)
  ∨ (nextStartTimeRef (step throws e s) = 0 ∧ interrupting e s).
Proof.
  destruct e; simpl; try (left; reflexivity).
  - left. unfold onClick. case_bool_decide; [reflexivity|].
    rewrite stopSession_cursor. reflexivity.
  - left. case_match; reflexivity.
  - left. case_match; reflexivity.
  - left. case_match; reflexivity.
  - left. case_match; reflexivity.
  - unfold onmessage_arrive. case_match.
    + left. simpl. lia.
    + rewrite onmessage_tail_cursor.
      destruct (interrupted m) eqn:Hi;
        [right; split; reflexivity|left; reflexivity].
  - unfold onmessage_resume.
    destruct (pending s !! j) as [m|] eqn:Hj; [|left; reflexivity].
    rewrite onmessage_tail_cursor.
    destruct (interrupted m) eqn:Hi; [right; eauto|left].
    simpl. lia.
  - left. unfold onerror. rewrite stopSession_cursor. reflexivity.
  - left. unfold onclose. rewrite stopSession_cursor. reflexivity.
  - left. case_match; [|reflexivity]. unfold interval_callback.
    repeat case_match; reflexivity.
  - left. case_match; reflexivity.
Qed.

(** X2: as long as no interruption is delivered, the buffers handed to
    [source.start] never overlap, however the handlers are interleaved and
    whatever else happens (stops, restarts, ticks): in the log of any such
    run every buffer starts no earlier than the end of the buffer started
    before it. *)
Theorem playback_never_overlaps
    (throws : Effect → bool) (saved : option (list TranscriptionEntry))
    (es : list Event) :
  Forall quiet es →
  back_to_back 0 (schedule (effects (run throws es (mount saved)))).
Proof.
  intros Hq.
  apply (run_invariant_on throws quiet on_schedule (step_on_schedule throws)
           es (mount saved) Hq).
  repeat split; simpl; [lia|constructor].
Qed.

(** Two audio messages whose decoding overlaps, in a session started
    through the action button. *)
Lemma playback_never_overlaps_witness :
  let es := [UiClick; MediaReady 0 5; TransportOpen 0; SessionResolved 0 9;
             TransportMessage audio_message (at_time 48000);
             TransportMessage audio_message (at_time 48100);
             DecodeDone 1 7200 (at_time 48200);
             DecodeDone 0 12000 (at_time 48300)] in
  Forall quiet es
  ∧ schedule (effects (run no_failure es (mount None)))
    = [(48100, 7200); (55300, 12000)]
  ∧ back_to_back 0 (schedule (effects (run no_failure es (mount None)))).
Proof.
  cbv zeta.
  assert (Hq : Forall quiet
                 [UiClick; MediaReady 0 5; TransportOpen 0;
                  SessionResolved 0 9;
                  TransportMessage audio_message (at_time 48000);
                  TransportMessage audio_message (at_time 48100);
                  DecodeDone 1 7200 (at_time 48200);
                  DecodeDone 0 12000 (at_time 48300)]).
  { repeat constructor. }
  split; [exact Hq|]. split; [reflexivity|].
  exact (playback_never_overlaps no_failure None _ Hq).
Defined.

(** X3: neither [stopSession] nor [startSession] resets the cursor.  After a
    stop and a new start (media set up, transport open, session resolved)
    nothing is in flight but [nextStartTimeRef] is what it was, so the
    first buffer of the new session is scheduled at the later of the old
    cursor and the reading of the new output clock. *)
Theorem cursor_is_kept_across_sessions
    (throws : Effect → bool) (s : State) (stream k : nat)
    (seen : SessionState) (h : nat) (now d : N) :
  let s' := startSession_resolved h
              (onopen k seen
                 (startSession_media stream
                    (startSession_begin (stopSession throws s)))) in
  sourcesRef s' = []
  ∧ nextStartTimeRef s' = nextStartTimeRef s
  ∧ effects (enqueue now d s')
    = effects s'
      ++ [SourceStart (nextSource s') (N.max (nextStartTimeRef s) now) d].
Proof.
  assert (E : nextStartTimeRef (stopSession throws s) = nextStartTimeRef s)
    by apply stopSession_cursor.
  intros s'.
  assert (E' : nextStartTimeRef s' = nextStartTimeRef s) by exact E.
  split; [apply stopSession_released|]. split; [exact E'|].
  rewrite enqueue_effects, E'. reflexivity.
Qed.

(** ** Transcript text along arbitrary runs *)

Lemma slice_last_short {A} (n : nat) (l new : list A) :
  (length new ≤ n)%nat →
  slice_last n (l ++ new) = drop (length l + length new - n) l ++ new.
Proof.
  intros H. unfold slice_last. rewrite length_app, drop_app.
  replace (length l + length new - n - length l)%nat with O by lia.
  reflexivity.
Qed.




Lemma fragments_cons (f : ServerMessage → option jsstring)
    (m : ServerMessage) (ms : list ServerMessage) :
  fragments f (m :: ms) = default [] (f m) ++ fragments f ms.
Proof. unfold fragments. simpl. destruct (f m); reflexivity. Qed.

Lemma appendFragments_buffers (m : ServerMessage) (s : State) :
  currentInputTranscription (appendFragments m s)
  = currentInputTranscription s ++ default [] (inputTranscription m)
  ∧ currentOutputTranscription (appendFragments m s)
    = currentOutputTranscription s ++ default [] (outputTranscription m)
  ∧ transcriptions (appendFragments m s) = transcriptions s.
Proof.
  unfold appendFragments.
  destruct (inputTranscription m), (outputTranscription m); simpl;
    rewrite ?app_nil_r; auto.
Qed.



Section Transcript.

Variable throws : Effect → bool.

Lemma interrupt_buffers (s : State) :
  currentInputTranscription (interrupt throws s)
  = currentInputTranscription s
  ∧ currentOutputTranscription (interrupt throws s)
    = currentOutputTranscription s
  ∧ transcriptions (interrupt throws s) = transcriptions s.
Proof. unfold interrupt. rewrite stopSources_eq. auto. Qed.

Lemma plain_step m clk s :
  plain m →
  let s' := step throws (TransportMessage m clk) s in
  currentInputTranscription s'
  = currentInputTranscription s ++ default [] (inputTranscription m)
  ∧ currentOutputTranscription s'
    = currentOutputTranscription s ++ default [] (outputTranscription m)
  ∧ transcriptions s' = transcriptions s.
Proof.
  intros [Ha Ht]. simpl. unfold onmessage_arrive, has_audio.
  rewrite Ha. simpl. unfold onmessage_tail. rewrite Ht.
  destruct (interrupted m).
  - destruct (interrupt_buffers (appendFragments m s)) as (-> & -> & ->).
    apply appendFragments_buffers.
  - apply appendFragments_buffers.
Qed.

Lemma plain_run mcs s :
  Forall (λ p, plain p.1) mcs →
  let s' := run throws (map deliver mcs) s in
  currentInputTranscription s'
  = currentInputTranscription s ++ fragments inputTranscription (map fst mcs)
  ∧ currentOutputTranscription s'
    = currentOutputTranscription s
      ++ fragments outputTranscription (map fst mcs)
  ∧ transcriptions s' = transcriptions s.
Proof.
  revert s. induction mcs as [|[m clk] mcs IH]; intros s Hp; simpl.
  - unfold fragments; simpl. rewrite !app_nil_r. auto.
  - inversion Hp as [|? ? Hm Hrest]; subst. simpl in Hm.
    destruct (IH (step throws (TransportMessage m clk) s) Hrest)
      as (E1 & E2 & E3).
    destruct (plain_step m clk s Hm) as (F1 & F2 & F3).
    simpl in *. unfold deliver in *. simpl in *.
    rewrite E1, E2, E3, F1, F2, F3, !fragments_cons, !app_assoc. auto.
Qed.



End Transcript.

(** X4: the entry made at the end of a turn joins the fragments of the
    turn.  For messages without audio payload, the fragments of each
    channel are appended to its buffer in arrival order, and the message
    that ends the turn makes the entries from the trimmed buffers: the
    transcript log becomes the last 15 of the old log followed by the
    entries of the trimmed concatenations, and is unchanged when both
    trim to the empty string. *)
Theorem turn_entry_joins_fragments
    (throws : Effect → bool) (mcs : list (ServerMessage * Clock))
    (t : ServerMessage) (clk : Clock) (s : State) :
  Forall (λ p, plain p.1) mcs →
  truthy_opt (audioData t) = false →
  turnComplete t = true →
  let ms := map fst mcs ++ [t] in
  let userT :=
    trim (currentInputTranscription s ++ fragments inputTranscription ms) in
  let aiT :=
    trim (currentOutputTranscription s ++ fragments outputTranscription ms) in
  transcriptions
    (run throws (map deliver mcs ++ [TransportMessage t clk]) s)
  = if truthy userT || truthy aiT
    then slice_last 15 (transcriptions s ++ newEntries userT aiT clk)
    else transcriptions s.
Proof.
  intros Hp Ha Ht ms userT aiT.
  rewrite run_app. destruct (plain_run throws mcs s Hp) as (E1 & E2 & E3).
  set (s1 := run throws (map deliver mcs) s) in *.
  simpl. unfold onmessage_arrive, has_audio. rewrite Ha. simpl.
  unfold onmessage_tail. rewrite Ht.
  destruct (appendFragments_buffers t s1) as (F1 & F2 & F3).
  assert (G : transcriptions (flush clk (appendFragments t s1))
              = if truthy userT || truthy aiT
                then slice_last 15
                       (transcriptions s ++ newEntries userT aiT clk)
                else transcriptions s).
  { rewrite flush_transcriptions. cbv zeta. rewrite F1, F2, F3, E1, E2, E3.
    unfold userT, aiT, ms, fragments. rewrite !omap_app, !concat_app. simpl.
    destruct (inputTranscription t), (outputTranscription t); simpl;
      rewrite ?app_nil_r, <- ?app_assoc; reflexivity. }
  destruct (interrupted t); [|exact G].
  destruct (interrupt_buffers throws (flush clk (appendFragments t s1)))
    as (_ & _ & ->).
  exact G.
Qed.

(** Three fragments of the assistant, the last with trailing white space,
    then the end of the turn. *)
Lemma turn_entry_joins_fragments_witness :
  let mcs := [(ai_fragment (lit "  Door "), at_time 1);
              (ai_fragment (lit "at 2 "), at_time 2);
              (ai_fragment (lit "o'clock. "), at_time 3)] in
  (Forall (λ p, plain p.1) mcs
   ∧ truthy_opt (audioData turn_complete_message) = false
   ∧ turnComplete turn_complete_message = true)
  ∧ transcriptions
      (run no_failure
         (map deliver mcs ++ [TransportMessage turn_complete_message
                                (at_time 4)])
         (mount None))
    = [ {| text := lit "Door at 2 o'clock."; type := ai; timestamp := 0 |} ].
Proof.
  cbv zeta.
  assert (Hp : Forall (λ p : ServerMessage * Clock, plain p.1)
                 [(ai_fragment (lit "  Door "), at_time 1);
                  (ai_fragment (lit "at 2 "), at_time 2);
                  (ai_fragment (lit "o'clock. "), at_time 3)]).
  { repeat constructor. }
  split; [repeat split; exact Hp|].
  rewrite (turn_entry_joins_fragments no_failure _ turn_complete_message
             (at_time 4) (mount None) Hp eq_refl eq_refl).
  reflexivity.
Defined.


(** X6: the assistant's entry of a turn is one object in both logs.  When
    the trimmed assistant buffer is not empty, the entry put in front of
    the memory log is the entry put at the end of the transcript log, with
    the same text and time stamp, and the storage is written once with the
    new memory log; when it is empty the turn touches neither the memory
    log nor the storage, whatever the user said. *)
Theorem assistant_entry_is_shared (clk : Clock) (s : State) :
  let aiT := trim (currentOutputTranscription s) in
  let entry := {| text := aiT; type := ai; timestamp := dateNowAi clk |} in
  if truthy aiT
  then head (dbEntries (flush clk s)) = Some entry
       ∧ last (transcriptions (flush clk s)) = Some entry
       ∧ localStorage (flush clk s) = Some (dbEntries (flush clk s))
       ∧ effects (flush clk s)
         = effects s ++ [StorageSetItem (dbEntries (flush clk s))]
  else dbEntries (flush clk s) = dbEntries s
       ∧ localStorage (flush clk s) = localStorage s
       ∧ effects (flush clk s) = effects s.
Proof.
  intros aiT entry. rewrite (flush_transcriptions clk s). cbv zeta.
  fold aiT. unfold flush. fold aiT.
  destruct (truthy aiT) eqn:Ha.
  - rewrite orb_true_r. repeat split.
    unfold newEntries. rewrite Ha.
    rewrite slice_last_short
      by (destruct (truthy (trim (currentInputTranscription s)));
          simpl; lia).
    rewrite !(assoc_L (++)). apply last_snoc.
  - destruct (truthy (trim (currentInputTranscription s))); simpl; auto.
Qed.

(** ** Memory log *)

Lemma take_app_take {A} (n : nat) (l k : list A) :
  take n (l ++ take n k) = take n (l ++ k).
Proof. rewrite !take_app, take_take. f_equal. f_equal. lia. Qed.

(** X7: saving entries one after the other keeps the 50 most recent,
    newest first: after [saveToDb] was run on [e1], ..., [en] in this
    order, the memory log is the first 50 of [en; ...; e1] followed by the
    old log, and the storage holds exactly that. *)
Theorem saveToDb_many (es : list TranscriptionEntry) (s : State) :
  let s' := foldl (λ s e, saveToDb e s) s es in
  dbEntries s'
  = (if es is [] then dbEntries s else take 50 (rev es ++ dbEntries s))
  ∧ localStorage s'
    = (if es is [] then localStorage s else Some (dbEntries s')).
Proof.
  revert s. induction es as [|e es IH]; intros s; [simpl; auto|].
  cbn [foldl]. destruct (IH (saveToDb e s)) as [E1 E2]. cbv zeta in *.
  split.
  - rewrite E1. destruct es as [|e2 es'].
    + reflexivity.
    + change (dbEntries (saveToDb e s)) with (take 50 (e :: dbEntries s)).
      rewrite take_app_take. simpl rev. rewrite <- !app_assoc. reflexivity.
  - rewrite E2. destruct es; reflexivity.
Qed.

Section Storage.

Variable throws : Effect → bool.

Lemma step_persisted (e : Event) (s : State) :
  persisted s → persisted (step throws e s).
Proof.
  intros Hs. unfold persisted.
  assert (Ht : ∀ m clk s0,
             persisted s0 → persisted (onmessage_tail throws m clk s0)).
  { intros m clk s0 H0. unfold persisted. tail_cases; simpl; auto. }
  destruct e; simpl; try exact Hs.
  - unfold onClick. case_bool_decide; [exact Hs|].
    pose proof (stopSession_logs throws s) as [= _ -> ->]. exact Hs.
  - case_match; exact Hs.
  - case_match; exact Hs.
  - case_match; exact Hs.
  - case_match; exact Hs.
  - unfold onmessage_arrive. case_match; [exact Hs|apply Ht, Hs].
  - unfold onmessage_resume. case_match; [|exact Hs]. apply Ht. exact Hs.
  - unfold onerror.
    pose proof (stopSession_logs throws
                  (set_error (Some transport_error_message) s))
      as [= _ -> ->].
    exact Hs.
  - unfold onclose.
    pose proof (stopSession_logs throws s) as [= _ -> ->]. exact Hs.
  - case_match; [|exact Hs]. unfold interval_callback.
    repeat case_match; exact Hs.
  - case_match; exact Hs.
Qed.

End Storage.

(** X8: the memory log survives a reload and the transcript log does not.
    After any run, from any stored value, a component mounted again on
    what the storage holds shows the same memory log and an empty
    transcript log.  (The stored JSON text is modelled by the list it
    encodes.) *)
Theorem memory_log_reloads
    (throws : Effect → bool) (saved : option (list TranscriptionEntry))
    (es : list Event) :
  let s := run throws es (mount saved) in
  dbEntries (mount (localStorage s)) = dbEntries s
  ∧ transcriptions (mount (localStorage s)) = [].
Proof.
  split; [|reflexivity].
  apply (run_invariant throws persisted);
    [apply step_persisted|reflexivity].
Qed.

(** X9: the numbers of the memory view.  The new entry is shown first with
    the largest number, the length of the log.  An older entry keeps its
    number when an entry is saved while the log has fewer than 50 entries;
    once the log is full every entry that stays is renumbered, one
    lower. *)
Theorem observation_numbers_shift
    (e x : TranscriptionEntry) (s : State) (i : nat) :
  dbEntries s !! i = Some x →
  (S i < 50)%nat →
  let db := dbEntries s in
  let db' := dbEntries (saveToDb e s) in
  db' !! O = Some e
  ∧ observation_number db' 0 = length db'
  ∧ db' !! S i = Some x
  ∧ observation_number db' (S i)
    = (if bool_decide (length db < 50)%nat
       then observation_number db i
       else 50 - S i)%nat.
Proof.
  intros Hx Hi db db'. unfold db', db. rewrite saveToDb_dbEntries.
  unfold observation_number. simpl.
  repeat split.
  - rewrite lookup_take_lt by lia. exact Hx.
  - rewrite length_take. case_bool_decide; lia.
Qed.

(** The second observation of a log of two. *)
Lemma observation_numbers_shift_witness :
  let e1 := {| text := lit "Keys on the table"; type := ai; timestamp := 1 |} in
  let e2 := {| text := lit "Door ahead"; type := ai; timestamp := 2 |} in
  let s := saveToDb e1 (mount None) in
  (dbEntries s !! O = Some e1 ∧ (1 < 50)%nat)
  ∧ dbEntries (saveToDb e2 s) = [e2; e1]
  ∧ observation_number (dbEntries s) 0 = 1%nat
  ∧ observation_number (dbEntries (saveToDb e2 s)) 1 = 1%nat
  ∧ observation_number (dbEntries (saveToDb e2 s)) 0 = 2%nat.
Proof.
  cbv zeta. split; [split; [reflexivity|lia]|].
  split; [reflexivity|]. split; [reflexivity|].
  destruct (observation_numbers_shift
              {| text := lit "Door ahead"; type := ai; timestamp := 2 |}
              {| text := lit "Keys on the table"; type := ai;
                 timestamp := 1 |}
              (saveToDb
                 {| text := lit "Keys on the table"; type := ai;
                    timestamp := 1 |} (mount None))
              O eq_refl ltac:(lia))
    as (_ & H0 & _ & H1).
  split; [exact H1|exact H0].
Defined.

(** ** Error message *)

Section ErrorMessage.

Variable throws : Effect → bool.

Lemma stopSession_error (s : State) :
  error (stopSession throws s) = error s.
Proof. stop_cases s. Qed.

Lemma onmessage_tail_error m clk s :
  error (onmessage_tail throws m clk s) = error s.
Proof. tail_cases; reflexivity. Qed.

Lemma step_error (e : Event) (s : State) :
  shown_or_absent s → shown_or_absent (step throws e s).
Proof.
  intros Hs. unfold shown_or_absent, error_banner.
  destruct e; simpl; try exact Hs.
  - unfold onClick. case_bool_decide; [left; reflexivity|].
    rewrite stopSession_error. exact Hs.
  - case_match; exact Hs.
  - case_match; exact Hs.
  - case_match; [|exact Hs]. right. simpl.
    destruct msg as [[|c r]|]; reflexivity.
  - case_match; exact Hs.
  - unfold onmessage_arrive. case_match; [exact Hs|].
    rewrite onmessage_tail_error. exact Hs.
  - unfold onmessage_resume. case_match; [|exact Hs].
    rewrite onmessage_tail_error. exact Hs.
  - right. unfold onerror. rewrite stopSession_error. reflexivity.
  - unfold onclose. rewrite stopSession_error. exact Hs.
  - case_match; [|exact Hs]. unfold interval_callback.
    repeat case_match; exact Hs.
  - case_match; exact Hs.
Qed.

End ErrorMessage.

(** X10: an error that is recorded is shown.  In every run the error is
    either absent or a string that is not empty, so the banner, which is
    rendered when the error is truthy, shows it; a transport error and a
    failed start always leave such a message (a failure whose own message
    is empty gets the default text); stopping keeps the message and only
    a new start removes it. *)
Theorem recorded_error_is_shown
    (throws : Effect → bool) (saved : option (list TranscriptionEntry))
    (es : list Event) (msg : option jsstring) :
  let s := run throws es (mount saved) in
  (error s = None ∨ error_banner s = true)
  ∧ error_banner (onerror throws s) = true
  ∧ error_banner (startSession_catch msg s) = true
  ∧ error (startSession_catch (Some []) s) = Some start_failure_default
  ∧ error_banner (startSession_begin s) = false
  ∧ error (stopSession throws s) = error s.
Proof.
  repeat split.
  - apply (run_invariant throws shown_or_absent);
      [apply step_error|left; reflexivity].
  - unfold onerror. unfold error_banner. rewrite stopSession_error.
    reflexivity.
  - unfold error_banner. simpl. destruct msg as [[|c r]|]; reflexivity.
  - apply stopSession_error.
Qed.

(** ** Playback handles *)

Lemma is_started_app_l (l l' : list Effect) (src : nat) :
  is_started l src → is_started (l ++ l') src.
Proof. intros (t & d & H). exists t, d. apply elem_of_app. auto. Qed.

Lemma is_started_app_r (l l' : list Effect) (src : nat) :
  is_started l' src → is_started (l ++ l') src.
Proof. intros (t & d & H). exists t, d. apply elem_of_app. auto. Qed.

Lemma stops_follow_starts_app (l l' : list Effect) :
  stops_follow_starts l → Forall (stop_ok l) l' →
  stops_follow_starts (l ++ l').
Proof.
  intros Hl Hl' l1 l2 src E.
  apply app_eq_app in E as [k [[E1 E2]|[E1 E2]]].
  - destruct k as [|e k].
    + simpl in E2. subst l'. rewrite app_nil_r in E1. subst l1.
      inversion Hl' as [|? ? Hs _]; subst. exact Hs.
    + simpl in E2. injection E2 as <- E2. apply (Hl l1 k src). exact E1.
  - subst l1 l'. apply is_started_app_l.
    apply Forall_app in Hl' as [_ Hs]. inversion Hs; subst. assumption.
Qed.

Lemma tracked_started_grow (s s' : State) (l' : list Effect) :
  tracked_started s →
  effects s' = effects s ++ l' →
  Forall (stop_ok (effects s)) l' →
  (∀ x, x ∈ sourcesRef s' → x ∈ sourcesRef s ∨ is_started l' x) →
  tracked_started s'.
Proof.
  intros [H1 H2] E Hl' Hsrc. split.
  - intros x Hx. rewrite E. destruct (Hsrc x Hx) as [H|H].
    + apply is_started_app_l, H1, H.
    + apply is_started_app_r, H.
  - rewrite E. apply stops_follow_starts_app; assumption.
Qed.

Section Handles.

Variable throws : Effect → bool.

Lemma stopped_sources_ok (s : State) (l : list nat) :
  tracked_started s → l ⊆ sourcesRef s →
  Forall (stop_ok (effects s)) (map SourceStop l).
Proof.
  intros [H1 _] Hl. apply Forall_forall. intros e He.
  apply list_elem_of_fmap in He as (src & -> & Hsrc). simpl.
  apply H1, Hl, Hsrc.
Qed.

(** The calls [stopSession] makes, in order. *)
Lemma stopSession_effects (s : State) :
  effects (stopSession throws s)
  = effects s
    ++ (match sessionRef s with Some h => [SessionClose h] | None => [] end)
    ++ (match intervalRef s with Some i => [ClearInterval i] | None => [] end)
    ++ map SourceStop (sourcesRef s)
    ++ (match videoSrcObject s with Some v => [TrackStop v] | None => [] end).
Proof.
  destruct s as [? ? ? ? vid ? ses ? ? int ? ? ? ? ? ? ? ? ? ?].
  destruct ses, int, vid; unfold stopSession, stopSources; simpl;
    rewrite ?try_catch_perform, ?stop_each; unfold emit; simpl;
    rewrite <- ?app_assoc; simpl; rewrite ?app_nil_r; reflexivity.
Qed.

Lemma stopSession_tracked (s : State) :
  tracked_started s → tracked_started (stopSession throws s).
Proof.
  intros Hs.
  pose proof (stopped_sources_ok s (sourcesRef s) Hs (reflexivity _))
    as Hstop.
  assert (Hsrc : sourcesRef (stopSession throws s) = []).
  { apply stopSession_released. }
  eapply tracked_started_grow; [exact Hs|apply stopSession_effects| |].
  - repeat (apply Forall_app; split); try exact Hstop;
      case_match; repeat constructor.
  - rewrite Hsrc. intros x Hx. inversion Hx.
Qed.

Lemma onmessage_tail_effects m clk s :
  ∃ l', effects (onmessage_tail throws m clk s) = effects s ++ l'
        ∧ Forall (λ e, match e with
                       | SourceStop src => src ∈ sourcesRef s
                       | SourceStart _ _ _ => False
                       | _ => True
                       end) l'
        ∧ sourcesRef (onmessage_tail throws m clk s) ⊆ sourcesRef s.
Proof.
  tail_cases; unfold emit; simpl; rewrite <- ?app_assoc; simpl.
  all: eexists; split; [reflexivity || (symmetry; apply app_nil_r)|].
  all: split; [|set_solver].
  all: rewrite ?Forall_app, ?Forall_cons, ?Forall_nil; repeat split; auto.
  all: apply Forall_forall; intros e He;
       apply list_elem_of_fmap in He as (src & -> & Hsrc); exact Hsrc.
Qed.

Lemma onmessage_tail_tracked m clk s :
  tracked_started s → tracked_started (onmessage_tail throws m clk s).
Proof.
  intros Hs.
  destruct (onmessage_tail_effects m clk s) as (l' & E & Hl' & Hsub).
  eapply tracked_started_grow; [exact Hs|exact E| |].
  - eapply Forall_impl; [exact Hl'|]. intros [] H; simpl; auto.
    apply Hs, H.
  - intros x Hx. left. apply Hsub, Hx.
Qed.

Lemma enqueue_finish_tracked (d : N) (s : State) :
  tracked_started s → tracked_started (enqueue_finish d s).
Proof.
  intros Hs.
  eapply (tracked_started_grow s _
            [SourceStart (nextSource s) (nextStartTimeRef s) d]);
    [exact Hs|reflexivity|repeat constructor|].
  intros x Hx. simpl in Hx. unfold set_add in Hx.
  case_bool_decide; [left; exact Hx|].
  apply elem_of_app in Hx as [Hx|Hx]; [left; exact Hx|right].
  apply list_elem_of_singleton in Hx as ->. eexists _, _. left.
Qed.

Lemma step_tracked (e : Event) (s : State) :
  tracked_started s → tracked_started (step throws e s).
Proof.
  intros Hs. destruct e; simpl.
  - unfold onClick.
    case_bool_decide; [exact Hs|apply stopSession_tracked, Hs].
  - case_match; exact Hs.
  - case_match; exact Hs.
  - case_match; exact Hs.
  - case_match; exact Hs.
  - unfold onmessage_arrive.
    case_match; [exact Hs|apply onmessage_tail_tracked, Hs].
  - unfold onmessage_resume. case_match; [|exact Hs].
    apply onmessage_tail_tracked, enqueue_finish_tracked. exact Hs.
  - apply stopSession_tracked. exact Hs.
  - apply stopSession_tracked. exact Hs.
  - case_match; [|exact Hs]. unfold interval_callback.
    repeat case_match; try exact Hs.
    eapply tracked_started_grow;
      [exact Hs|reflexivity|repeat constructor|auto].
  - case_match; [|exact Hs].
    eapply tracked_started_grow;
      [exact Hs|reflexivity|repeat constructor|auto].
  - split; [|apply Hs]. intros x Hx. simpl in Hx. unfold set_delete in Hx.
    apply list_elem_of_filter in Hx as [_ Hx]. apply Hs, Hx.
Qed.

End Handles.

(** X11: [source.stop()] is only ever called on a source that was started.
    A source enters the in-flight set after [source.start], and both
    [stopSession] and the interrupted block stop the sources of the set
    only: in the log of every run, each call of [stop] on a source comes
    after a call of [start] on it. *)
Theorem only_started_sources_are_stopped
    (throws : Effect → bool) (saved : option (list TranscriptionEntry))
    (es : list Event) :
  let s := run throws es (mount saved) in
  stops_follow_starts (effects s)
  ∧ ∀ src, src ∈ sourcesRef s → is_started (effects s) src.
Proof.
  cbv zeta.
  assert (H : tracked_started (run throws es (mount saved))).
  { apply (run_invariant throws tracked_started).
    - apply step_tracked.
    - split.
      + intros x Hx. inversion Hx.
      + intros l1 l2 src E. destruct l1; discriminate E. }
  destruct H as [H1 H2]. split; assumption.
Qed.

(** ** Messages and the session state *)

Lemma appendFragments_text (m : ServerMessage) (s s' : State) :
  text_state s = text_state s' →
  text_state (appendFragments m s) = text_state (appendFragments m s').
Proof.
  unfold text_state, logs, appendFragments. intros [= E1 E2 E3 E4 E5].
  destruct (inputTranscription m), (outputTranscription m); simpl;
    congruence.
Qed.

Lemma flush_text (clk : Clock) (s s' : State) :
  text_state s = text_state s' →
  text_state (flush clk s) = text_state (flush clk s').
Proof.
  unfold text_state, logs. destruct s, s'. simpl.
  intros [= -> -> -> -> ->].
  unfold flush, saveToDb. simpl.
  destruct (truthy (trim _)), (truthy (trim _)); reflexivity.
Qed.

Lemma appendFragments_set_state m st s :
  appendFragments m (set_sessionState st s)
  = set_sessionState st (appendFragments m s).
Proof.
  unfold appendFragments.
  destruct (inputTranscription m), (outputTranscription m); reflexivity.
Qed.

Lemma flush_set_state clk st s :
  flush clk (set_sessionState st s) = set_sessionState st (flush clk s).
Proof.
  unfold flush.
  cbn [currentInputTranscription currentOutputTranscription
       set_sessionState].
  destruct (truthy (trim (currentInputTranscription s))),
    (truthy (trim (currentOutputTranscription s))); reflexivity.
Qed.

Section AnyState.

Variable throws : Effect → bool.

Lemma interrupt_text (s : State) :
  text_state (interrupt throws s) = text_state s.
Proof. unfold interrupt. rewrite stopSources_eq. reflexivity. Qed.

Lemma onmessage_tail_text m clk s s' :
  text_state s = text_state s' →
  text_state (onmessage_tail throws m clk s)
  = text_state (onmessage_tail throws m clk s').
Proof.
  intros E. unfold onmessage_tail.
  apply (appendFragments_text m) in E.
  destruct (turnComplete m); [apply (flush_text clk) in E|];
    destruct (interrupted m); rewrite ?interrupt_text; exact E.
Qed.

Lemma stopSession_text (s : State) :
  text_state (stopSession throws s) = text_state s.
Proof. stop_cases s. Qed.

Lemma stopSession_audioContextOut (s : State) :
  audioContextOut (stopSession throws s) = audioContextOut s.
Proof. stop_cases s. Qed.

Lemma interrupt_set_state st s :
  interrupt throws (set_sessionState st s)
  = set_sessionState st (interrupt throws s).
Proof. unfold interrupt. rewrite !stopSources_eq. reflexivity. Qed.

Lemma onmessage_tail_set_state m clk st s :
  onmessage_tail throws m clk (set_sessionState st s)
  = set_sessionState st (onmessage_tail throws m clk s).
Proof.
  unfold onmessage_tail. rewrite appendFragments_set_state.
  destruct (turnComplete m), (interrupted m);
    rewrite ?flush_set_state, ?interrupt_set_state; reflexivity.
Qed.

End AnyState.

(** X12: the message handler never looks at the session state.  Handling
    an arriving message, and resuming a handler whose buffer is decoded,
    does to every other part of the component exactly what it would do in
    any other session state, and leaves the session state as it is. *)
Theorem messages_are_handled_in_any_state
    (throws : Effect → bool) (m : ServerMessage) (clk : Clock)
    (j : nat) (d : N) (st : SessionState) (s : State) :
  step throws (TransportMessage m clk) (set_sessionState st s)
  = set_sessionState st (step throws (TransportMessage m clk) s)
  ∧ step throws (DecodeDone j d clk) (set_sessionState st s)
    = set_sessionState st (step throws (DecodeDone j d clk) s).
Proof.
  split; simpl.
  - unfold onmessage_arrive.
    change (has_audio m (set_sessionState st s)) with (has_audio m s).
    destruct (has_audio m s);
      [reflexivity|apply onmessage_tail_set_state].
  - unfold onmessage_resume. cbn [pending set_sessionState].
    destruct (pending s !! j); [|reflexivity].
    rewrite <- onmessage_tail_set_state. reflexivity.
Qed.

(** X13: stopping does not silence the transcript.  A message without
    audio payload that is delivered after [stopSession] changes the two
    buffers, the transcript log, the memory log and the storage exactly as
    it would have without the stop, while the session state stays
    [DISCONNECTED]. *)
Theorem stop_does_not_silence_messages
    (throws : Effect → bool) (m : ServerMessage) (clk : Clock) (s : State) :
  has_audio m s = false →
  text_state (step throws (TransportMessage m clk) (stopSession throws s))
  = text_state (step throws (TransportMessage m clk) s)
  ∧ sessionState
      (step throws (TransportMessage m clk) (stopSession throws s))
    = DISCONNECTED.
Proof.
  intros Ha. simpl. unfold onmessage_arrive.
  assert (Ha' : has_audio m (stopSession throws s) = false).
  { unfold has_audio in *. rewrite stopSession_audioContextOut. exact Ha. }
  rewrite Ha, Ha'. split.
  - apply onmessage_tail_text, stopSession_text.
  - rewrite onmessage_tail_sessionState. apply stopSession_state.
Qed.

(** The assistant's turn ends after the user disconnected. *)
Lemma stop_does_not_silence_messages_witness :
  let s := step no_failure
             (TransportMessage (ai_fragment (lit "Door ahead")) (at_time 1))
             live_session in
  let s' := step no_failure (TransportMessage turn_complete_message
                               (at_time 2))
              (stopSession no_failure s) in
  has_audio turn_complete_message s = false
  ∧ sessionState s' = DISCONNECTED
  ∧ transcriptions s'
    = [ {| text := lit "Door ahead"; type := ai; timestamp := 0 |} ]
  ∧ text_state s'
    = text_state
        (step no_failure (TransportMessage turn_complete_message (at_time 2))
           s).
Proof.
  cbv zeta. split; [reflexivity|].
  destruct (stop_does_not_silence_messages no_failure turn_complete_message
              (at_time 2)
              (step no_failure
                 (TransportMessage (ai_fragment (lit "Door ahead"))
                    (at_time 1))
                 live_session)
              eq_refl) as [H1 H2].
  split; [exact H2|]. split; [reflexivity|exact H1].
Defined.

(** X14: stopping does not cancel a start that is under way.  When
    [stopSession] runs while the state is [CONNECTING] the state becomes
    [DISCONNECTED], but the open callback of that start still runs when the
    transport opens: it moves the state to [CONNECTED], starts a timer and
    wires an audio processor, and the session that resolves afterwards is
    stored in [sessionRef]. *)
Theorem stop_does_not_cancel_a_pending_start
    (throws : Effect → bool) (s : State) (k : nat) (seen : SessionState)
    (h : nat) :
  sessionState s = CONNECTING →
  closures s !! k = Some seen →
  let s' := run throws [UiClick; TransportOpen k; SessionResolved k h] s in
  sessionState (run throws [UiClick] s) = DISCONNECTED
  ∧ sessionState s' = CONNECTED
  ∧ sessionRef s' = Some h
  ∧ (∃ i t, intervalRef s' = Some i ∧ timers s' !! i = Some t)
  ∧ processors s' = processors s ++ [k].
Proof.
  intros Hc Hk. simpl. unfold onClick. rewrite Hc. simpl.
  rewrite !stopSession_closures, Hk. simpl.
  unfold invoked. simpl. rewrite stopSession_closures, Hk. simpl.
  repeat split.
  - apply stopSession_state.
  - eexists _, _. split; [reflexivity|]. apply lookup_insert_eq.
  - rewrite stopSession_processors. reflexivity.
Qed.

(** A click on Connect, then a click on Disconnect before the transport
    has opened. *)
Lemma stop_does_not_cancel_a_pending_start_witness :
  let s := run no_failure [UiClick] (mount None) in
  let s' := run no_failure [UiClick; TransportOpen 0; SessionResolved 0 9]
              s in
  (sessionState s = CONNECTING ∧ closures s !! O = Some DISCONNECTED)
  ∧ sessionState (run no_failure [UiClick] s) = DISCONNECTED
  ∧ sessionState s' = CONNECTED
  ∧ sessionRef s' = Some 9%nat
  ∧ processors s' = [0%nat].
Proof.
  cbv zeta. split; [split; reflexivity|].
  destruct (stop_does_not_cancel_a_pending_start no_failure
              (run no_failure [UiClick] (mount None)) 0 DISCONNECTED 9
              eq_refl eq_refl) as (H1 & H2 & H3 & _ & H4).
  split; [exact H1|]. split; [exact H2|]. split; [exact H3|exact H4].
Defined.
